(** * Name normalisation for blocking: a shallow embedding of [name_utils.py]

    The module under study exports one function,
    [normalize_name_for_blocking], built from three private helpers
    ([_decode_literal_hex_sequences], [_strip_accents], [_strip_suffixes]).

    A Python [str] is a sequence of Unicode code points; it is modelled as
    a list of [N].  Exceptions are modelled by a small error monad, so that
    the [try]/[except] blocks of the source are visible in the embedding.
    The parts of the run-time library the source calls into but that are
    data rather than code (the Unicode Character Database behind
    [unicodedata.normalize], [unicodedata.category] and [str.lower]) are a
    parameter of the development. *)

From Stdlib Require Import Ascii String.
From Stdlib Require Import List NArith ZArith Bool Lia.
Import ListNotations.

Set Warnings "-register-all".

Local Open Scope N_scope.
Local Open Scope list_scope.

(** ** Python values, strings and exceptions *)

Definition str : Type := list N.

(** An ASCII literal, read as a Python string. *)
Definition lit (s : string) : str := map N_of_ascii (list_ascii_of_string s).

Fixpoint str_eqb (a b : str) : bool :=
  match a, b with
  | [], [] => true
  | x :: a', y :: b' => (x =? y) && str_eqb a' b'
  | _, _ => false
  end.

Inductive pyval : Type :=
| PyNone
| PyBool (b : bool)
| PyInt (z : Z)
| PyBytes (bs : list N)
| PyStr (s : str)
| PyList (l : list pyval).

(** [isinstance(v, str)], returning the string when it is one. *)
Definition as_str (v : pyval) : option str :=
  match v with
  | PyStr s => Some s
  | _ => None
  end.

Inductive exn : Type := ValueError | UnicodeDecodeError | OverflowError.

Definition exn_eqb (a b : exn) : bool :=
  match a, b with
  | ValueError, ValueError => true
  | UnicodeDecodeError, UnicodeDecodeError => true
  | OverflowError, OverflowError => true
  | _, _ => false
  end.

Inductive exc (A : Type) : Type :=
| Ret (a : A)
| Raise (e : exn).
Arguments Ret {A} a.
Arguments Raise {A} e.

Definition bind {A B : Type} (m : exc A) (k : A -> exc B) : exc B :=
  match m with
  | Ret a => k a
  | Raise e => Raise e
  end.

Notation "x <- m ;; k" := (bind m (fun x => k))
  (at level 61, m at next level, right associativity).

(** [try: body  except (e1, ..., en): handler] *)
Definition try_except {A : Type} (body : exc A) (caught : list exn)
    (handler : exc A) : exc A :=
  match body with
  | Ret a => Ret a
  | Raise e => if existsb (exn_eqb e) caught then handler else Raise e
  end.

(** ** The [str] methods used by the source *)

(** [str.isspace] on one character, which is also the separator test of
    [str.split()] and [str.strip()] without arguments. *)
Definition isspace (c : N) : bool :=
  ((9 <=? c) && (c <=? 13)) || ((28 <=? c) && (c <=? 32))
  || (c =? 133) || (c =? 160) || (c =? 5760)
  || ((8192 <=? c) && (c <=? 8202))
  || (c =? 8232) || (c =? 8233) || (c =? 8239) || (c =? 8287) || (c =? 12288).

Fixpoint lstrip (s : str) : str :=
  match s with
  | [] => []
  | c :: tl => if isspace c then lstrip tl else s
  end.

Definition rstrip (s : str) : str := rev (lstrip (rev s)).

Definition strip (s : str) : str := rstrip (lstrip s).

(** [s.split()]: the maximal runs of non-whitespace characters of [s]. *)
Definition starts_space (s : str) : bool :=
  match s with
  | [] => true
  | d :: _ => isspace d
  end.

Definition cons_word (c : N) (word_ends : bool) (ws : list str) : list str :=
  match word_ends, ws with
  | false, w :: ws' => (c :: w) :: ws'
  | _, _ => [c] :: ws
  end.

Fixpoint split (s : str) : list str :=
  match s with
  | [] => []
  | c :: tl =>
      if isspace c then split tl
      else cons_word c (starts_space tl) (split tl)
  end.

(** [sep.join(ws)] *)
Fixpoint join (sep : str) (ws : list str) : str :=
  match ws with
  | [] => []
  | [w] => w
  | w :: ws' => w ++ sep ++ join sep ws'
  end.

(** [s.split(sep)] for a one-character separator. *)
Fixpoint split_sep (sep : N) (s : str) : list str :=
  match s with
  | [] => [[]]
  | c :: tl =>
      if c =? sep then [] :: split_sep sep tl
      else match split_sep sep tl with
           | w :: ws => (c :: w) :: ws
           | [] => [[c]]
           end
  end.

Fixpoint starts_with (p s : str) : bool :=
  match p, s with
  | [], _ => true
  | x :: p', y :: s' => (x =? y) && starts_with p' s'
  | _ :: _, [] => false
  end.

(** [s.replace(old, new)]: occurrences of [old] are found from left to
    right and do not overlap.  [skip] counts the characters of the current
    occurrence that are still to be consumed. *)
Fixpoint replace_from (old new : str) (skip : nat) (s : str) : str :=
  match s with
  | [] => []
  | c :: tl =>
      match skip with
      | S n => replace_from old new n tl
      | O =>
          if starts_with old s
          then new ++ replace_from old new (Nat.pred (length old)) tl
          else c :: replace_from old new 0 tl
      end
  end.

Definition replace (old new : str) (s : str) : str :=
  match old with
  | [] => new ++ flat_map (fun c => c :: new) s
  | _ :: _ => replace_from old new 0 s
  end.

(** ** Built-ins used inside the decoder callbacks *)

Definition hex_digit_value (c : N) : option N :=
  if (48 <=? c) && (c <=? 57) then Some (c - 48)
  else if (97 <=? c) && (c <=? 102) then Some (c - 87)
  else if (65 <=? c) && (c <=? 70) then Some (c - 55)
  else None.

Fixpoint int_base16_from (acc : N) (s : str) : exc N :=
  match s with
  | [] => Ret acc
  | c :: tl =>
      match hex_digit_value c with
      | Some d => int_base16_from (16 * acc + d) tl
      | None => Raise ValueError
      end
  end.

(** [int(s, 16)] on a run of hexadecimal digits; anything else is reported
    as [ValueError].  (The sign, prefix, underscore and padding forms that
    [int] also accepts cannot be produced by the patterns below.) *)
Definition int_base16 (s : str) : exc N :=
  match s with
  | [] => Raise ValueError
  | _ :: _ => int_base16_from 0 s
  end.

(** [bytes(ints)] *)
Definition py_bytes (ints : list N) : exc (list N) :=
  if forallb (fun v => v <=? 255) ints then Ret ints else Raise ValueError.

(** [chr(n)] *)
Definition py_chr (n : N) : exc str :=
  if n <=? 1114111 then Ret [n]
  else if n <=? 2147483647 then Raise ValueError
  else Raise OverflowError.

Definition is_cont (b : N) : bool := (128 <=? b) && (b <=? 191).

Definition second_of_three (b1 b2 : N) : bool :=
  if b1 =? 224 then (160 <=? b2) && (b2 <=? 191)
  else if b1 =? 237 then (128 <=? b2) && (b2 <=? 159)
  else is_cont b2.

Definition second_of_four (b1 b2 : N) : bool :=
  if b1 =? 240 then (144 <=? b2) && (b2 <=? 191)
  else if b1 =? 244 then (128 <=? b2) && (b2 <=? 143)
  else is_cont b2.

(** The strict UTF-8 decoder: shortest forms only, no surrogates, nothing
    above U+10FFFF. *)
Fixpoint utf8_decode (bs : list N) : option str :=
  match bs with
  | [] => Some []
  | b1 :: r1 =>
      if b1 <? 128 then option_map (cons b1) (utf8_decode r1)
      else if (194 <=? b1) && (b1 <=? 223) then
        match r1 with
        | b2 :: r2 =>
            if is_cont b2
            then option_map (cons ((b1 - 192) * 64 + (b2 - 128)))
                            (utf8_decode r2)
            else None
        | _ => None
        end
      else if (224 <=? b1) && (b1 <=? 239) then
        match r1 with
        | b2 :: b3 :: r3 =>
            if second_of_three b1 b2 && is_cont b3
            then option_map
                   (cons ((b1 - 224) * 4096 + (b2 - 128) * 64 + (b3 - 128)))
                   (utf8_decode r3)
            else None
        | _ => None
        end
      else if (240 <=? b1) && (b1 <=? 244) then
        match r1 with
        | b2 :: b3 :: b4 :: r4 =>
            if second_of_four b1 b2 && is_cont b3 && is_cont b4
            then option_map
                   (cons ((b1 - 240) * 262144 + (b2 - 128) * 4096
                          + (b3 - 128) * 64 + (b4 - 128)))
                   (utf8_decode r4)
            else None
        | _ => None
        end
      else None
  end.

(** [bs.decode("utf-8")] *)
Definition bytes_decode_utf8 (bs : list N) : exc str :=
  match utf8_decode bs with
  | Some s => Ret s
  | None => Raise UnicodeDecodeError
  end.

(** ** The fragment of [re] used by the source *)

(** A match object: the text matched and the captured groups 1..n. *)
Record re_match : Type := { group0 : str; groups : list str }.

Definition group (m : re_match) (i : nat) : str :=
  match i with
  | O => group0 m
  | S j => nth j (groups m) []
  end.

(** The character class [[0-9a-fA-F]]. *)
Definition re_hex (c : N) : bool :=
  ((48 <=? c) && (c <=? 57)) || ((97 <=? c) && (c <=? 102))
  || ((65 <=? c) && (c <=? 70)).

(** The pattern made of [k] copies of [\\x([0-9a-fA-F]{2})], tried at the
    head of [s]: backslash (92), [x] (120) and two captured digits. *)
Fixpoint match_hex_groups (k : nat) (s : str) : option (list str) :=
  match k with
  | O => Some []
  | S k' =>
      match s with
      | b :: x :: h1 :: h2 :: rest =>
          if (b =? 92) && (x =? 120) && re_hex h1 && re_hex h2
          then option_map (cons [h1; h2]) (match_hex_groups k' rest)
          else None
      | _ => None
      end
  end.

Definition match_hex (k : nat) (s : str) : option re_match :=
  option_map (fun gs => {| group0 := firstn (4 * k) s; groups := gs |})
             (match_hex_groups k s).

(** [re.sub(pattern_k, repl, s)] with a callback: the matches are taken
    from left to right without overlap, and an exception of the callback
    propagates. *)
Fixpoint re_sub_hex_from (k : nat) (repl : re_match -> exc str)
    (skip : nat) (s : str) : exc str :=
  match s with
  | [] => Ret []
  | c :: tl =>
      match skip with
      | S n => re_sub_hex_from k repl n tl
      | O =>
          match match_hex k s with
          | Some m =>
              r <- repl m ;;
              rest <- re_sub_hex_from k repl (Nat.pred (4 * k)) tl ;;
              Ret (r ++ rest)
          | None =>
              rest <- re_sub_hex_from k repl 0 tl ;;
              Ret (c :: rest)
          end
      end
  end.

Definition re_sub_hex (k : nat) (repl : re_match -> exc str) (s : str)
    : exc str :=
  re_sub_hex_from k repl 0 s.

(** [re.sub(r"\\s+", repl, s)].  In a raw string the two backslashes are
    an escaped backslash, so the pattern is: one backslash (92) followed by
    one or more letters [s] (115).  [inside] tells that the characters read
    so far end inside a match, which a further [s] extends. *)
Fixpoint re_sub_backslash_s_from (repl : str) (inside : bool) (s : str)
    : str :=
  match s with
  | [] => []
  | c :: tl =>
      if inside && (c =? 115) then re_sub_backslash_s_from repl true tl
      else if (c =? 92) && starts_with [115] tl
      then repl ++ re_sub_backslash_s_from repl true tl
      else c :: re_sub_backslash_s_from repl false tl
  end.

Definition re_sub_backslash_s (repl : str) (s : str) : str :=
  re_sub_backslash_s_from repl false s.

(** ** The Unicode Character Database

    [unicodedata.normalize("NFD", s)], [unicodedata.category(ch)] and
    [s.lower()] are driven by tables of the interpreter, which are not part
    of the repository: they are taken as a parameter. *)
Record UnicodeData : Type := {
  nfd : str -> str;
  category : N -> str;
  lower : str -> str
}.

(** ** The module [name_utils] *)

(** The callback [decode_sequence] of [_decode_literal_hex_sequences]. *)
Fixpoint hex_bytes_loop (m : re_match) (indices : list nat)
    (hex_bytes : list N) : exc (str + list N) :=
  match indices with
  | [] => Ret (inr hex_bytes)
  | i :: indices' =>
      match int_base16 (group m i) with
      | Ret v => hex_bytes_loop m indices' (hex_bytes ++ [v])
      | Raise ValueError => Ret (inl (group m 0))
      | Raise e => Raise e
      end
  end.

Definition decode_sequence (m : re_match) : exc str :=
  r <- hex_bytes_loop m (seq 1 (length (groups m))) [] ;;
  match r with
  | inl original => Ret original
  | inr hex_bytes =>
      try_except (bs <- py_bytes hex_bytes ;; bytes_decode_utf8 bs)
                 [UnicodeDecodeError; ValueError]
                 (Ret (group m 0))
  end.

(** The callback [decode_single]. *)
Definition decode_single (m : re_match) : exc str :=
  try_except (n <- int_base16 (group m 1) ;; py_chr n)
             [ValueError; OverflowError]
             (Ret (group m 0)).

Definition _decode_literal_hex_sequences (text : pyval) : exc str :=
  match as_str text with
  | None => Ret []
  | Some text =>
      text <- re_sub_hex 3 decode_sequence text ;;
      text <- re_sub_hex 2 decode_sequence text ;;
      re_sub_hex 1 decode_single text
  end.

Definition suffix_tokens : list str :=
  [lit "jr"; lit "sr"; lit "ii"; lit "iii"; lit "iv"; lit "v"].

Definition _strip_suffixes (text : pyval) : str :=
  match as_str text with
  | None => []
  | Some text =>
      let tokens :=
        filter (fun tok => negb (existsb (str_eqb tok) suffix_tokens))
               (split text) in
      join (lit " ") tokens
  end.

Section WithUnicodeData.

Variable U : UnicodeData.

Definition _strip_accents (text : pyval) : str :=
  match as_str text with
  | None => []
  | Some text =>
      let normalized := nfd U text in
      join [] (map (fun ch => [ch])
                   (filter (fun ch => negb (str_eqb (category U ch) (lit "Mn")))
                           normalized))
  end.

Definition normalize_name_for_blocking (text : pyval) : exc str :=
  match as_str text with
  | None => Ret []
  | Some _ =>
      (* Step 1: decode literal hex sequences *)
      text <- _decode_literal_hex_sequences text ;;
      (* Step 2: strip accents *)
      let text := _strip_accents (PyStr text) in
      (* Step 3: lowercase and strip *)
      let text := strip (lower U text) in
      (* Step 4: handle backslashes and punctuation *)
      let text := replace (lit "\ ") (lit " ") text in
      let text := replace (lit "\") (lit " ") text in
      let text := replace (lit ".") [] text in
      let text := replace (lit ",") [] text in
      let text := replace (lit "-") (lit " ") text in
      let text := replace (lit "'") [] text in
      (* Step 5: normalize whitespace *)
      let text := strip (re_sub_backslash_s (lit " ") text) in
      (* Step 6: remove common suffixes *)
      let text := _strip_suffixes (PyStr text) in
      (* Final whitespace cleanup *)
      let text := strip (re_sub_backslash_s (lit " ") text) in
      Ret text
  end.

End WithUnicodeData.

(** ** Variants of the orchestrator and its intermediate texts *)

(** The value of [text] when control reaches line 102, and when it
    reaches line 108. *)
Definition text_before_line_102 (U : UnicodeData) (s : str) : exc str :=
  text <- _decode_literal_hex_sequences (PyStr s) ;;
  let text := _strip_accents U (PyStr text) in
  let text := strip (lower U text) in
  let text := replace (lit "\ ") (lit " ") text in
  let text := replace (lit "\") (lit " ") text in
  let text := replace (lit ".") [] text in
  let text := replace (lit ",") [] text in
  let text := replace (lit "-") (lit " ") text in
  let text := replace (lit "'") [] text in
  Ret text.

Definition text_before_line_108 (U : UnicodeData) (s : str) : exc str :=
  text <- text_before_line_102 U s ;;
  let text := strip (re_sub_backslash_s (lit " ") text) in
  let text := _strip_suffixes (PyStr text) in
  Ret text.

(** The orchestrator with line 94 (backslash-space to space) deleted. *)
Definition normalize_without_line_94 (U : UnicodeData) (text : pyval)
    : exc str :=
  match as_str text with
  | None => Ret []
  | Some _ =>
      text <- _decode_literal_hex_sequences text ;;
      let text := _strip_accents U (PyStr text) in
      let text := strip (lower U text) in
      let text := replace (lit "\") (lit " ") text in
      let text := replace (lit ".") [] text in
      let text := replace (lit ",") [] text in
      let text := replace (lit "-") (lit " ") text in
      let text := replace (lit "'") [] text in
      let text := strip (re_sub_backslash_s (lit " ") text) in
      let text := _strip_suffixes (PyStr text) in
      let text := strip (re_sub_backslash_s (lit " ") text) in
      Ret text
  end.

(** The orchestrator with both [re.sub(...).strip()] replaced by
    [text.strip()]. *)
Definition normalize_strip_only (U : UnicodeData) (text : pyval) : exc str :=
  match as_str text with
  | None => Ret []
  | Some _ =>
      text <- _decode_literal_hex_sequences text ;;
      let text := _strip_accents U (PyStr text) in
      let text := strip (lower U text) in
      let text := replace (lit "\ ") (lit " ") text in
      let text := replace (lit "\") (lit " ") text in
      let text := replace (lit ".") [] text in
      let text := replace (lit ",") [] text in
      let text := replace (lit "-") (lit " ") text in
      let text := replace (lit "'") [] text in
      let text := strip text in
      let text := _strip_suffixes (PyStr text) in
      let text := strip text in
      Ret text
  end.

(** ** The specification's description of the helpers *)

(** The byte named by two hexadecimal digits. *)
Definition hex_pair (h1 h2 : N) : N :=
  match hex_digit_value h1, hex_digit_value h2 with
  | Some a, Some b => 16 * a + b
  | _, _ => 0
  end.

(** One literal group: backslash, [x], two hexadecimal digits. *)
Definition is_group (b x h1 h2 : N) : bool :=
  (b =? 92) && (x =? 120) && re_hex h1 && re_hex h2.

(** The UTF-8 decoding of the bytes, or the original text when they are
    not valid UTF-8. *)
Definition utf8_or_original (bytes : list N) (original : str) : str :=
  match utf8_decode bytes with
  | Some decoded => decoded
  | None => original
  end.

(** Pass 1: three consecutive groups. *)
Fixpoint spec_pass_three (s : str) : str :=
  match s with
  | [] => []
  | c :: tl =>
      match s with
      | b1 :: x1 :: h1 :: h2 :: b2 :: x2 :: h3 :: h4
          :: b3 :: x3 :: h5 :: h6 :: rest =>
          if is_group b1 x1 h1 h2 && is_group b2 x2 h3 h4
             && is_group b3 x3 h5 h6
          then utf8_or_original
                 [hex_pair h1 h2; hex_pair h3 h4; hex_pair h5 h6]
                 [b1; x1; h1; h2; b2; x2; h3; h4; b3; x3; h5; h6]
               ++ spec_pass_three rest
          else c :: spec_pass_three tl
      | _ => c :: spec_pass_three tl
      end
  end.

(** Pass 2: two consecutive groups. *)
Fixpoint spec_pass_two (s : str) : str :=
  match s with
  | [] => []
  | c :: tl =>
      match s with
      | b1 :: x1 :: h1 :: h2 :: b2 :: x2 :: h3 :: h4 :: rest =>
          if is_group b1 x1 h1 h2 && is_group b2 x2 h3 h4
          then utf8_or_original [hex_pair h1 h2; hex_pair h3 h4]
                                [b1; x1; h1; h2; b2; x2; h3; h4]
               ++ spec_pass_two rest
          else c :: spec_pass_two tl
      | _ => c :: spec_pass_two tl
      end
  end.

(** Pass 3: every remaining single group becomes the code point 0..255
    it names. *)
Fixpoint spec_pass_one (s : str) : str :=
  match s with
  | [] => []
  | c :: tl =>
      match s with
      | b1 :: x1 :: h1 :: h2 :: rest =>
          if is_group b1 x1 h1 h2
          then hex_pair h1 h2 :: spec_pass_one rest
          else c :: spec_pass_one tl
      | _ => c :: spec_pass_one tl
      end
  end.

Definition spec_decode (s : str) : str :=
  spec_pass_one (spec_pass_two (spec_pass_three s)).

(** The characters of [s] whose general category is not [Mn], in order. *)
Fixpoint without_nonspacing_marks (U : UnicodeData) (s : str) : str :=
  match s with
  | [] => []
  | c :: tl =>
      if str_eqb (category U c) (lit "Mn")
      then without_nonspacing_marks U tl
      else c :: without_nonspacing_marks U tl
  end.

Definition is_suffix_token (tok : str) : bool :=
  existsb (str_eqb tok) suffix_tokens.

(** What lines 96 to 99 do to one character: period (46), comma (44) and
    apostrophe (39) vanish, a hyphen (45) becomes one space. *)
Definition punctuation_image (c : N) : str :=
  if (c =? 46) || (c =? 44) || (c =? 39) then []
  else if c =? 45 then [32]
  else [c].

(** The orchestrator with lines 96 to 99 (the four [replace] calls on
    period, comma, hyphen and apostrophe) replaced by one pass that puts
    [punctuation_image c] for every character [c]. *)
Definition normalize_with_punctuation_map (U : UnicodeData) (text : pyval)
    : exc str :=
  match as_str text with
  | None => Ret []
  | Some _ =>
      text <- _decode_literal_hex_sequences text ;;
      let text := _strip_accents U (PyStr text) in
      let text := strip (lower U text) in
      let text := replace (lit "\ ") (lit " ") text in
      let text := replace (lit "\") (lit " ") text in
      let text := flat_map punctuation_image text in
      let text := strip (re_sub_backslash_s (lit " ") text) in
      let text := _strip_suffixes (PyStr text) in
      let text := strip (re_sub_backslash_s (lit " ") text) in
      Ret text
  end.

(** ** The normalized form *)

(** No character of general category [Lu] (letter, uppercase). *)
Definition no_uppercase_letter (U : UnicodeData) (out : str) : Prop :=
  forall c, In c out -> category U c <> lit "Lu".

(** Every character is left alone by [str.lower]. *)
Definition lowercased (U : UnicodeData) (out : str) : Prop :=
  forall c, In c out -> lower U [c] = [c].

(** No period, comma, hyphen, apostrophe or backslash. *)
Definition no_target_punctuation (out : str) : Prop :=
  forall c, In c out ->
    c <> 46 /\ c <> 44 /\ c <> 45 /\ c <> 39 /\ c <> 92.

(** Every whitespace character is a space (32) standing between two
    characters that are not whitespace: the maximal runs of whitespace
    are single spaces, and none is at either end. *)
Definition single_spaced (out : str) : Prop :=
  forall a c b, out = a ++ c :: b -> isspace c = true ->
    c = 32
    /\ (exists a' x, a = a' ++ [x] /\ isspace x = false)
    /\ (exists y b', b = y :: b' /\ isspace y = false).

Definition trimmed (out : str) : Prop := strip out = out.

Definition no_suffix_token (out : str) : Prop :=
  forall tok, In tok (split_sep 32 out) -> ~ In tok suffix_tokens.

(** The postcondition with "no uppercase letters" read on the general
    category. *)
Definition normalized_form_by_category (U : UnicodeData) (out : str) : Prop :=
  no_uppercase_letter U out /\ no_target_punctuation out
  /\ single_spaced out /\ trimmed out /\ no_suffix_token out.

(** The postcondition with "lowercase" read as: unchanged by [lower]. *)
Definition normalized_form (U : UnicodeData) (out : str) : Prop :=
  lowercased U out /\ no_target_punctuation out
  /\ single_spaced out /\ trimmed out /\ no_suffix_token out.

(** Two facts about [str.lower] that hold of the interpreter's tables:
    the characters it produces are its fixed points, and so is the
    space. *)
Record LowerLaws (U : UnicodeData) : Prop := {
  lower_output_fixed : forall t c, In c (lower U t) -> lower U [c] = [c];
  lower_space : lower U [32] = [32]
}.

(** ** A fragment of the Unicode Character Database

    Modelled from the Unicode Character Database: the tables are exact on
    U+0000..U+00FF, on the seven combining marks that occur in the
    decompositions of those characters, and on U+1B44 BALINESE ADEG ADEG,
    U+2102 DOUBLE-STRUCK CAPITAL C and U+302E HANGUL SINGLE DOT TONE MARK.
    Any other code point is answered as an unassigned one (category [Cn],
    combining class 0, no decomposition, no case mapping); the fragment is
    only evaluated on strings of the characters listed. *)

Definition latin1_categories : list string :=
  ["Cc"; "Cc"; "Cc"; "Cc"; "Cc"; "Cc"; "Cc"; "Cc"; "Cc"; "Cc"; "Cc"; "Cc";
   "Cc"; "Cc"; "Cc"; "Cc"; "Cc"; "Cc"; "Cc"; "Cc"; "Cc"; "Cc"; "Cc"; "Cc";
   "Cc"; "Cc"; "Cc"; "Cc"; "Cc"; "Cc"; "Cc"; "Cc"; "Zs"; "Po"; "Po"; "Po";
   "Sc"; "Po"; "Po"; "Po"; "Ps"; "Pe"; "Po"; "Sm"; "Po"; "Pd"; "Po"; "Po";
   "Nd"; "Nd"; "Nd"; "Nd"; "Nd"; "Nd"; "Nd"; "Nd"; "Nd"; "Nd"; "Po"; "Po";
   "Sm"; "Sm"; "Sm"; "Po"; "Po"; "Lu"; "Lu"; "Lu"; "Lu"; "Lu"; "Lu"; "Lu";
   "Lu"; "Lu"; "Lu"; "Lu"; "Lu"; "Lu"; "Lu"; "Lu"; "Lu"; "Lu"; "Lu"; "Lu";
   "Lu"; "Lu"; "Lu"; "Lu"; "Lu"; "Lu"; "Lu"; "Ps"; "Po"; "Pe"; "Sk"; "Pc";
   "Sk"; "Ll"; "Ll"; "Ll"; "Ll"; "Ll"; "Ll"; "Ll"; "Ll"; "Ll"; "Ll"; "Ll";
   "Ll"; "Ll"; "Ll"; "Ll"; "Ll"; "Ll"; "Ll"; "Ll"; "Ll"; "Ll"; "Ll"; "Ll";
   "Ll"; "Ll"; "Ll"; "Ps"; "Sm"; "Pe"; "Sm"; "Cc"; "Cc"; "Cc"; "Cc"; "Cc";
   "Cc"; "Cc"; "Cc"; "Cc"; "Cc"; "Cc"; "Cc"; "Cc"; "Cc"; "Cc"; "Cc"; "Cc";
   "Cc"; "Cc"; "Cc"; "Cc"; "Cc"; "Cc"; "Cc"; "Cc"; "Cc"; "Cc"; "Cc"; "Cc";
   "Cc"; "Cc"; "Cc"; "Cc"; "Zs"; "Po"; "Sc"; "Sc"; "Sc"; "Sc"; "So"; "Po";
   "Sk"; "So"; "Lo"; "Pi"; "Sm"; "Cf"; "So"; "Sk"; "So"; "Sm"; "No"; "No";
   "Sk"; "Ll"; "Po"; "Po"; "Sk"; "No"; "Lo"; "Pf"; "No"; "No"; "No"; "Po";
   "Lu"; "Lu"; "Lu"; "Lu"; "Lu"; "Lu"; "Lu"; "Lu"; "Lu"; "Lu"; "Lu"; "Lu";
   "Lu"; "Lu"; "Lu"; "Lu"; "Lu"; "Lu"; "Lu"; "Lu"; "Lu"; "Lu"; "Lu"; "Sm";
   "Lu"; "Lu"; "Lu"; "Lu"; "Lu"; "Lu"; "Lu"; "Ll"; "Ll"; "Ll"; "Ll"; "Ll";
   "Ll"; "Ll"; "Ll"; "Ll"; "Ll"; "Ll"; "Ll"; "Ll"; "Ll"; "Ll"; "Ll"; "Ll";
   "Ll"; "Ll"; "Ll"; "Ll"; "Ll"; "Ll"; "Ll"; "Sm"; "Ll"; "Ll"; "Ll"; "Ll";
   "Ll"; "Ll"; "Ll"; "Ll"]%string.

(** Canonical decompositions, fully expanded. *)
Definition latin1_decompositions : list (N * str) :=
  [(192, [65; 768]); (193, [65; 769]); (194, [65; 770]); (195, [65; 771]);
   (196, [65; 776]); (197, [65; 778]); (199, [67; 807]); (200, [69; 768]);
   (201, [69; 769]); (202, [69; 770]); (203, [69; 776]); (204, [73; 768]);
   (205, [73; 769]); (206, [73; 770]); (207, [73; 776]); (209, [78; 771]);
   (210, [79; 768]); (211, [79; 769]); (212, [79; 770]); (213, [79; 771]);
   (214, [79; 776]); (217, [85; 768]); (218, [85; 769]); (219, [85; 770]);
   (220, [85; 776]); (221, [89; 769]); (224, [97; 768]); (225, [97; 769]);
   (226, [97; 770]); (227, [97; 771]); (228, [97; 776]); (229, [97; 778]);
   (231, [99; 807]); (232, [101; 768]); (233, [101; 769]); (234, [101; 770]);
   (235, [101; 776]); (236, [105; 768]); (237, [105; 769]); (238, [105; 770]);
   (239, [105; 776]); (241, [110; 771]); (242, [111; 768]); (243, [111; 769]);
   (244, [111; 770]); (245, [111; 771]); (246, [111; 776]); (249, [117; 768]);
   (250, [117; 769]); (251, [117; 770]); (252, [117; 776]); (253, [121; 769]);
   (255, [121; 776])].

(** General categories outside Latin-1: the marks U+0300, 0301, 0302,
    0303, 0308, 030A and 0327 are [Mn]; U+1B44 and U+302E are [Mc];
    U+2102 is [Lu]. *)
Definition other_categories : list (N * string) :=
  [(768, "Mn"); (769, "Mn"); (770, "Mn"); (771, "Mn"); (776, "Mn");
   (778, "Mn"); (807, "Mn"); (6980, "Mc"); (8450, "Lu");
   (12334, "Mc")]%string.

(** Canonical combining classes other than 0. *)
Definition combining_classes : list (N * N) :=
  [(768, 230); (769, 230); (770, 230); (771, 230); (776, 230); (778, 230);
   (807, 202); (6980, 9); (12334, 224)].

Fixpoint assoc {A : Type} (default : A) (table : list (N * A)) (c : N) : A :=
  match table with
  | [] => default
  | (k, v) :: table' => if k =? c then v else assoc default table' c
  end.

Definition fragment_category (c : N) : str :=
  if c <? 256 then lit (nth (N.to_nat c) latin1_categories "Cn"%string)
  else lit (assoc "Cn"%string other_categories c).

Definition combining (c : N) : N := assoc 0 combining_classes c.

Definition decomposition (c : N) : str := assoc [c] latin1_decompositions c.

(** Canonical ordering: a character of non-zero combining class moves
    left past the characters of greater class that precede it.  The
    output so far is kept reversed. *)
Fixpoint place_mark (c : N) (rev_out : str) : str :=
  match rev_out with
  | [] => [c]
  | p :: ps =>
      if (0 <? combining c) && (combining c <? combining p)
      then p :: place_mark c ps
      else c :: rev_out
  end.

Definition canonical_order (s : str) : str :=
  rev (fold_left (fun rev_out c => place_mark c rev_out) s []).

Definition fragment_nfd (s : str) : str :=
  canonical_order (flat_map decomposition s).

Definition lower_char (c : N) : N :=
  if ((65 <=? c) && (c <=? 90))
     || ((192 <=? c) && (c <=? 222) && negb (c =? 215))
  then c + 32 else c.

Definition fragment_lower (s : str) : str := map lower_char s.

Definition ucd_fragment : UnicodeData :=
  {| nfd := fragment_nfd;
     category := fragment_category;
     lower := fragment_lower |}.

(** The strings that differ from [b] only by extra spaces (32) put in
    front of spaces of [b]. *)
Inductive extra_spaces : str -> str -> Prop :=
| es_nil : extra_spaces [] []
| es_cons (c : N) (a b : str) :
    extra_spaces a b -> extra_spaces (c :: a) (c :: b)
| es_extra (a b : str) :
    extra_spaces a (32 :: b) -> extra_spaces (32 :: a) (32 :: b).

(** A token of [split]: not empty, and free of whitespace. *)
Definition word (w : str) : Prop :=
  w <> [] /\ forall c, In c w -> isspace c = false.

(** ** Closed forms of the pipeline

    The text after step 3, what step 4 makes of it, and the tokens that
    step 6 keeps. *)
Definition folded (U : UnicodeData) (s : str) : str :=
  strip (lower U (_strip_accents U (PyStr (spec_decode s)))).

Definition backslash_to_space (c : N) : str :=
  if c =? 92 then [32] else [c].

Definition standardized (t : str) : str :=
  flat_map punctuation_image
           (flat_map backslash_to_space (replace [92; 32] [32] t)).

Definition standardized_without_line_94 (t : str) : str :=
  flat_map punctuation_image (flat_map backslash_to_space t).

Definition kept_tokens (x : str) : list str :=
  filter (fun tok => negb (is_suffix_token tok)) (split x).

(** ** Predicates for the further properties *)

(** Some position of [s] starts a well-formed group: backslash, [x] and
    two hexadecimal digits. *)
Fixpoint has_escape (s : str) : bool :=
  match s with
  | [] => false
  | _ :: tl =>
      match match_hex 1 s with
      | Some _ => true
      | None => has_escape tl
      end
  end.

(** The literal text of one group. *)
Definition escape (h1 h2 : N) : str := [92; 120; h1; h2].

Definition is_ascii (s : str) : Prop := forall c, In c s -> c < 128.

(** * Properties *)

(** ** Strings *)

Lemma str_eqb_eq (a b : str) : str_eqb a b = true <-> a = b.
Proof.
  revert b; induction a as [|x a IH]; intros [|y b]; simpl;
    try (split; (discriminate || reflexivity)).
  rewrite andb_true_iff, N.eqb_eq, IH.
  split; [intros [-> ->]; reflexivity | intros H; inversion H; auto].
Qed.

Lemma str_eqb_refl (a : str) : str_eqb a a = true.
Proof. apply str_eqb_eq; reflexivity. Qed.

Lemma join_empty_singletons (l : str) : join [] (map (fun ch => [ch]) l) = l.
Proof.
  induction l as [|c l IH]; [reflexivity|].
  destruct l as [|d l]; [reflexivity|].
  change (join [] (map (fun ch => [ch]) (c :: d :: l)))
    with ([c] ++ [] ++ join [] (map (fun ch => [ch]) (d :: l))).
  rewrite IH; reflexivity.
Qed.

Lemma join_cons (sep w : str) (ws : list str) :
  ws <> [] -> join sep (w :: ws) = w ++ sep ++ join sep ws.
Proof. destruct ws; [congruence | reflexivity]. Qed.

(** ** [replace] *)

Lemma replace_single (c : N) (new s : str) :
  replace [c] new s = flat_map (fun x => if x =? c then new else [x]) s.
Proof.
  unfold replace.
  induction s as [|x s IH]; [reflexivity|].
  simpl. rewrite andb_true_r, N.eqb_sym.
  destruct (x =? c); simpl; rewrite IH; reflexivity.
Qed.

Lemma replace_pair_hit (a b : N) (new rest : str) :
  replace [a; b] new (a :: b :: rest) = new ++ replace [a; b] new rest.
Proof.
  unfold replace; simpl. rewrite !N.eqb_refl; reflexivity.
Qed.

Lemma replace_pair_miss (a b c : N) (new tl : str) :
  starts_with [a; b] (c :: tl) = false ->
  replace [a; b] new (c :: tl) = c :: replace [a; b] new tl.
Proof.
  unfold replace; intros H.
  change (replace_from [a; b] new 0 (c :: tl))
    with (if starts_with [a; b] (c :: tl)
          then new ++ replace_from [a; b] new 1 tl
          else c :: replace_from [a; b] new 0 tl).
  rewrite H; reflexivity.
Qed.

Lemma in_replace_pair (a b : N) (s : str) (c : N) :
  In c (replace [a; b] [b] s) -> In c s.
Proof.
  remember (length s) as n eqn:Hn.
  assert (Hle : (length s <= n)%nat) by lia. clear Hn.
  revert s Hle; induction n as [|n IH]; intros s Hle.
  - destruct s; [intros []|simpl in Hle; lia].
  - destruct s as [|x tl]; [intros []|].
    destruct (starts_with [a; b] (x :: tl)) eqn:E.
    + destruct tl as [|y rest]; [simpl in E; rewrite andb_false_r in E; discriminate|].
      simpl in E. rewrite andb_true_r in E.
      apply andb_true_iff in E as [Ea Eb].
      apply N.eqb_eq in Ea, Eb; subst x y.
      rewrite replace_pair_hit. simpl. intros [<-|H]; [auto|].
      right; right. apply IH; [simpl in Hle; lia | exact H].
    + rewrite (replace_pair_miss _ _ _ _ _ E). simpl.
      intros [<-|H]; [auto|]. right. apply IH; [simpl in Hle; lia | exact H].
Qed.

(** ** The no-op substitution *)

Lemma re_sub_backslash_s_no_backslash (repl s : str) :
  ~ In 92 s -> re_sub_backslash_s repl s = s.
Proof.
  unfold re_sub_backslash_s.
  induction s as [|c s IH]; intros Hn; [reflexivity|].
  simpl. destruct (N.eqb_spec c 92) as [->|Hc].
  - exfalso; apply Hn; left; reflexivity.
  - simpl. rewrite IH; [reflexivity|]. intros H; apply Hn; right; exact H.
Qed.

(** ** [split], [strip] and [join] *)

Lemma split_lstrip (s : str) : split (lstrip s) = split s.
Proof.
  induction s as [|c s IH]; [reflexivity|].
  simpl. destruct (isspace c) eqn:E; [exact IH|].
  simpl. rewrite E. reflexivity.
Qed.

Lemma starts_space_snoc (s : str) (c : N) :
  isspace c = true -> starts_space (s ++ [c]) = starts_space s.
Proof. destruct s; simpl; auto. Qed.

Lemma split_snoc_space (s : str) (c : N) :
  isspace c = true -> split (s ++ [c]) = split s.
Proof.
  intros Hc. induction s as [|x s IH]; simpl.
  - rewrite Hc. reflexivity.
  - rewrite IH, starts_space_snoc by exact Hc. reflexivity.
Qed.

Lemma split_rev_lstrip (r : str) : split (rev (lstrip r)) = split (rev r).
Proof.
  induction r as [|c r IH]; [reflexivity|].
  simpl. destruct (isspace c) eqn:E; [|reflexivity].
  rewrite split_snoc_space by exact E. exact IH.
Qed.

Lemma split_rstrip (s : str) : split (rstrip s) = split s.
Proof. unfold rstrip. rewrite split_rev_lstrip, rev_involutive. reflexivity. Qed.

Lemma split_strip (s : str) : split (strip s) = split s.
Proof. unfold strip. rewrite split_rstrip. apply split_lstrip. Qed.

Lemma split_words (s : str) : Forall word (split s).
Proof.
  induction s as [|c s IH]; simpl; [constructor|].
  destruct (isspace c) eqn:E; [exact IH|].
  assert (Hc : word [c]).
  { split; [discriminate|]. intros x [<-|[]]. exact E. }
  unfold cons_word.
  destruct (starts_space s); [constructor; assumption|].
  destruct (split s) as [|w ws]; [constructor; assumption|].
  inversion IH as [|? ? [Hw1 Hw2] Hws]; subst.
  constructor; [|exact Hws].
  split; [discriminate|]. intros x [<-|Hx]; [exact E | apply Hw2; exact Hx].
Qed.

Lemma split_word_then_space (w r : str) (p : N) :
  word w -> isspace p = true -> split (w ++ p :: r) = w :: split r.
Proof.
  intros [Hne Hw] Hp.
  induction w as [|x w IH]; [congruence|].
  assert (Hx : isspace x = false) by (apply Hw; left; reflexivity).
  simpl. rewrite Hx.
  destruct w as [|y w].
  - simpl. rewrite Hp. reflexivity.
  - assert (Hy : isspace y = false) by (apply Hw; right; left; reflexivity).
    rewrite IH; [|discriminate|intros c Hc; apply Hw; right; exact Hc].
    simpl. rewrite Hy. reflexivity.
Qed.

Lemma split_word (w : str) : word w -> split w = [w].
Proof.
  intros Hw.
  rewrite <- (split_snoc_space w 32) by reflexivity.
  apply (split_word_then_space w [] 32 Hw). reflexivity.
Qed.

Lemma split_join (ws : list str) :
  Forall word ws -> split (join [32] ws) = ws.
Proof.
  induction 1 as [|w ws Hw Hws IH]; [reflexivity|].
  destruct ws as [|w' ws]; [apply split_word; exact Hw|].
  rewrite join_cons by discriminate.
  change (w ++ [32] ++ join [32] (w' :: ws))
    with (w ++ 32 :: join [32] (w' :: ws)).
  rewrite split_word_then_space by (exact Hw || reflexivity).
  rewrite IH. reflexivity.
Qed.

Lemma extra_spaces_starts (a b : str) :
  extra_spaces a b -> starts_space a = starts_space b.
Proof. destruct 1; reflexivity. Qed.

Lemma extra_spaces_split (a b : str) :
  extra_spaces a b -> split a = split b.
Proof.
  induction 1 as [|c a b H IH|a b H IH]; [reflexivity| |].
  - simpl. rewrite IH, (extra_spaces_starts a b H). reflexivity.
  - exact IH.
Qed.

Lemma extra_spaces_refl (a : str) : extra_spaces a a.
Proof. induction a; constructor; assumption. Qed.

Lemma extra_spaces_app (p a b : str) :
  extra_spaces a b -> extra_spaces (p ++ a) (p ++ b).
Proof. intros H; induction p; simpl; [exact H | constructor; assumption]. Qed.

Lemma extra_spaces_flat_map (f : N -> str) (a b : str) :
  f 32 = [32] -> extra_spaces a b ->
  extra_spaces (flat_map f a) (flat_map f b).
Proof.
  intros Hf. induction 1 as [|c a b H IH|a b H IH]; simpl.
  - constructor.
  - apply extra_spaces_app. exact IH.
  - simpl in IH. rewrite Hf in *. simpl in *. apply es_extra. exact IH.
Qed.

(** ** The decoder callbacks *)

Lemma hex_digit_value_bound (c d : N) :
  hex_digit_value c = Some d -> d < 16.
Proof.
  unfold hex_digit_value.
  destruct ((48 <=? c) && (c <=? 57)) eqn:E1;
    [|destruct ((97 <=? c) && (c <=? 102)) eqn:E2;
      [|destruct ((65 <=? c) && (c <=? 70)) eqn:E3]];
    intros H; inversion H; subst; clear H;
    match goal with
    | E : (_ && _) = true |- _ =>
        apply andb_true_iff in E as [Ea Eb];
        apply N.leb_le in Ea, Eb; lia
    end.
Qed.

Lemma re_hex_digit (c : N) :
  re_hex c = true -> exists d, hex_digit_value c = Some d.
Proof.
  unfold re_hex, hex_digit_value. intros H.
  destruct ((48 <=? c) && (c <=? 57)); [eauto|].
  destruct ((97 <=? c) && (c <=? 102)); [eauto|].
  destruct ((65 <=? c) && (c <=? 70)); [eauto|discriminate].
Qed.

Lemma hex_pair_byte (h1 h2 : N) : (hex_pair h1 h2 <=? 255) = true.
Proof.
  apply N.leb_le. unfold hex_pair.
  destruct (hex_digit_value h1) as [a|] eqn:E1; [|lia].
  destruct (hex_digit_value h2) as [b|] eqn:E2; [|lia].
  apply hex_digit_value_bound in E1, E2. lia.
Qed.

Lemma int_base16_pair (h1 h2 : N) :
  re_hex h1 = true -> re_hex h2 = true ->
  int_base16 [h1; h2] = Ret (hex_pair h1 h2).
Proof.
  intros H1 H2.
  destruct (re_hex_digit h1 H1) as [a Ea], (re_hex_digit h2 H2) as [b Eb].
  unfold int_base16, hex_pair, int_base16_from. rewrite Ea, Eb.
  rewrite N.mul_0_r, N.add_0_l. reflexivity.
Qed.

Lemma is_group_hex (b x h1 h2 : N) :
  is_group b x h1 h2 = true -> re_hex h1 = true /\ re_hex h2 = true.
Proof.
  unfold is_group. rewrite !andb_true_iff. tauto.
Qed.

Lemma decode_bytes (bytes : list N) (original : str) :
  forallb (fun v => v <=? 255) bytes = true ->
  try_except (bs <- py_bytes bytes ;; bytes_decode_utf8 bs)
             [UnicodeDecodeError; ValueError] (Ret original)
  = Ret (utf8_or_original bytes original).
Proof.
  intros H. unfold py_bytes, bytes_decode_utf8, utf8_or_original.
  rewrite H. simpl. destruct (utf8_decode bytes); reflexivity.
Qed.

Lemma decode_sequence_three (g0 : str) (h1 h2 h3 h4 h5 h6 : N) :
  re_hex h1 = true -> re_hex h2 = true -> re_hex h3 = true ->
  re_hex h4 = true -> re_hex h5 = true -> re_hex h6 = true ->
  decode_sequence
    {| group0 := g0; groups := [[h1; h2]; [h3; h4]; [h5; h6]] |}
  = Ret (utf8_or_original
           [hex_pair h1 h2; hex_pair h3 h4; hex_pair h5 h6] g0).
Proof.
  intros H1 H2 H3 H4 H5 H6. unfold decode_sequence.
  cbn [groups group0 length seq hex_bytes_loop group nth].
  rewrite !int_base16_pair by assumption.
  cbn [hex_bytes_loop app bind].
  apply decode_bytes. cbn [forallb]. rewrite !hex_pair_byte. reflexivity.
Qed.

Lemma decode_sequence_two (g0 : str) (h1 h2 h3 h4 : N) :
  re_hex h1 = true -> re_hex h2 = true -> re_hex h3 = true ->
  re_hex h4 = true ->
  decode_sequence {| group0 := g0; groups := [[h1; h2]; [h3; h4]] |}
  = Ret (utf8_or_original [hex_pair h1 h2; hex_pair h3 h4] g0).
Proof.
  intros H1 H2 H3 H4. unfold decode_sequence.
  cbn [groups group0 length seq hex_bytes_loop group nth].
  rewrite !int_base16_pair by assumption.
  cbn [hex_bytes_loop app bind].
  apply decode_bytes. cbn [forallb]. rewrite !hex_pair_byte. reflexivity.
Qed.

Lemma decode_single_one (g0 : str) (h1 h2 : N) :
  re_hex h1 = true -> re_hex h2 = true ->
  decode_single {| group0 := g0; groups := [[h1; h2]] |}
  = Ret [hex_pair h1 h2].
Proof.
  intros H1 H2. unfold decode_single.
  cbn [groups group0 group nth].
  rewrite int_base16_pair by assumption.
  cbn [bind]. unfold py_chr.
  assert (Hb := hex_pair_byte h1 h2). apply N.leb_le in Hb.
  destruct (N.leb_spec (hex_pair h1 h2) 1114111); [reflexivity|lia].
Qed.

(** The callbacks never let an exception escape, whatever the match. *)
Lemma int_base16_from_raises (s : str) (acc : N) :
  (exists v, int_base16_from acc s = Ret v)
  \/ int_base16_from acc s = Raise ValueError.
Proof.
  revert acc; induction s as [|c s IH]; intros acc; simpl; [eauto|].
  destruct (hex_digit_value c); [apply IH | auto].
Qed.

Lemma int_base16_raises (s : str) :
  (exists v, int_base16 s = Ret v) \/ int_base16 s = Raise ValueError.
Proof.
  destruct s; [right; reflexivity | apply int_base16_from_raises].
Qed.

Lemma hex_bytes_loop_returns (m : re_match) (indices : list nat)
    (hex_bytes : list N) :
  exists r, hex_bytes_loop m indices hex_bytes = Ret r.
Proof.
  revert hex_bytes; induction indices as [|i l IH]; intros hb; simpl;
    [eauto|].
  destruct (int_base16_raises (group m i)) as [[v ->]| ->]; [apply IH|eauto].
Qed.

Lemma decode_sequence_returns (m : re_match) :
  exists s, decode_sequence m = Ret s.
Proof.
  unfold decode_sequence.
  destruct (hex_bytes_loop_returns m (seq 1 (length (groups m))) [])
    as [[original|hb] ->]; cbn [bind]; [eauto|].
  unfold py_bytes, bytes_decode_utf8.
  destruct (forallb _ hb); cbn; [|eauto].
  destruct (utf8_decode hb); cbn; eauto.
Qed.

Lemma decode_single_returns (m : re_match) :
  exists s, decode_single m = Ret s.
Proof.
  unfold decode_single.
  destruct (int_base16_raises (group m 1)) as [[v ->]| ->]; cbn; [|eauto].
  unfold py_chr.
  destruct (v <=? 1114111); cbn; [eauto|].
  destruct (v <=? 2147483647); cbn; eauto.
Qed.

(** ** The three passes of the decoder *)

Lemma re_sub_hex_from_skip (k : nat) (repl : re_match -> exc str)
    (n : nat) (s : str) :
  re_sub_hex_from k repl n s = re_sub_hex_from k repl 0 (skipn n s).
Proof.
  revert n; induction s as [|c s IH]; intros [|n]; try reflexivity.
  cbn [re_sub_hex_from skipn]. apply IH.
Qed.

Lemma re_sub_hex_cons (k : nat) (repl : re_match -> exc str)
    (c : N) (tl : str) :
  re_sub_hex k repl (c :: tl)
  = match match_hex k (c :: tl) with
    | Some m =>
        r <- repl m ;;
        rest <- re_sub_hex k repl (skipn (Nat.pred (4 * k)) tl) ;;
        Ret (r ++ rest)
    | None => rest <- re_sub_hex k repl tl ;; Ret (c :: rest)
    end.
Proof.
  unfold re_sub_hex. cbn [re_sub_hex_from].
  destruct (match_hex k (c :: tl)); [|reflexivity].
  rewrite re_sub_hex_from_skip. reflexivity.
Qed.

Ltac split_conditions :=
  repeat match goal with
         | |- context [if ?b then _ else _] => destruct b; cbn [andb option_map]
         end.

Lemma match_hex_one (s : str) :
  match_hex 1 s
  = match s with
    | b1 :: x1 :: h1 :: h2 :: rest =>
        if is_group b1 x1 h1 h2
        then Some {| group0 := [b1; x1; h1; h2]; groups := [[h1; h2]] |}
        else None
    | _ => None
    end.
Proof.
  unfold match_hex, is_group.
  do 4 (destruct s as [|? s]; [reflexivity|]).
  cbn [match_hex_groups Nat.mul Nat.add firstn].
  split_conditions; reflexivity.
Qed.

Lemma match_hex_two (s : str) :
  match_hex 2 s
  = match s with
    | b1 :: x1 :: h1 :: h2 :: b2 :: x2 :: h3 :: h4 :: rest =>
        if is_group b1 x1 h1 h2 && is_group b2 x2 h3 h4
        then Some {| group0 := [b1; x1; h1; h2; b2; x2; h3; h4];
                     groups := [[h1; h2]; [h3; h4]] |}
        else None
    | _ => None
    end.
Proof.
  unfold match_hex, is_group.
  do 4 (destruct s as [|? s]; [reflexivity|]).
  do 4 (destruct s as [|? s];
        [cbn [match_hex_groups]; split_conditions; reflexivity|]).
  cbn [match_hex_groups Nat.mul Nat.add firstn].
  split_conditions; reflexivity.
Qed.

Lemma match_hex_three (s : str) :
  match_hex 3 s
  = match s with
    | b1 :: x1 :: h1 :: h2 :: b2 :: x2 :: h3 :: h4
        :: b3 :: x3 :: h5 :: h6 :: rest =>
        if is_group b1 x1 h1 h2 && is_group b2 x2 h3 h4
           && is_group b3 x3 h5 h6
        then Some {| group0 := [b1; x1; h1; h2; b2; x2; h3; h4;
                                b3; x3; h5; h6];
                     groups := [[h1; h2]; [h3; h4]; [h5; h6]] |}
        else None
    | _ => None
    end.
Proof.
  unfold match_hex, is_group.
  do 4 (destruct s as [|? s]; [reflexivity|]).
  do 8 (destruct s as [|? s];
        [cbn [match_hex_groups]; split_conditions; reflexivity|]).
  cbn [match_hex_groups Nat.mul Nat.add firstn].
  split_conditions; reflexivity.
Qed.


Lemma spec_pass_three_cons (c : N) (tl : str) :
  spec_pass_three (c :: tl)
  = match c :: tl with
    | b1 :: x1 :: h1 :: h2 :: b2 :: x2 :: h3 :: h4
        :: b3 :: x3 :: h5 :: h6 :: rest =>
        if is_group b1 x1 h1 h2 && is_group b2 x2 h3 h4
           && is_group b3 x3 h5 h6
        then utf8_or_original
               [hex_pair h1 h2; hex_pair h3 h4; hex_pair h5 h6]
               [b1; x1; h1; h2; b2; x2; h3; h4; b3; x3; h5; h6]
             ++ spec_pass_three rest
        else c :: spec_pass_three tl
    | _ => c :: spec_pass_three tl
    end.
Proof. reflexivity. Qed.

Lemma spec_pass_two_cons (c : N) (tl : str) :
  spec_pass_two (c :: tl)
  = match c :: tl with
    | b1 :: x1 :: h1 :: h2 :: b2 :: x2 :: h3 :: h4 :: rest =>
        if is_group b1 x1 h1 h2 && is_group b2 x2 h3 h4
        then utf8_or_original [hex_pair h1 h2; hex_pair h3 h4]
                              [b1; x1; h1; h2; b2; x2; h3; h4]
             ++ spec_pass_two rest
        else c :: spec_pass_two tl
    | _ => c :: spec_pass_two tl
    end.
Proof. reflexivity. Qed.

Lemma spec_pass_one_cons (c : N) (tl : str) :
  spec_pass_one (c :: tl)
  = match c :: tl with
    | b1 :: x1 :: h1 :: h2 :: rest =>
        if is_group b1 x1 h1 h2
        then hex_pair h1 h2 :: spec_pass_one rest
        else c :: spec_pass_one tl
    | _ => c :: spec_pass_one tl
    end.
Proof. reflexivity. Qed.

(** Induction on strings by length, for the scans that consume several
    characters at once. *)
Lemma str_length_ind (P : str -> Prop) :
  (forall s, (forall t, (length t < length s)%nat -> P t) -> P s) ->
  forall s, P s.
Proof.
  intros step s.
  remember (length s) as n eqn:Hn.
  assert (Hle : (length s <= n)%nat) by lia. clear Hn.
  revert s Hle; induction n as [|n IH]; intros s Hle; apply step; intros t Ht.
  - lia.
  - apply IH. lia.
Qed.

Ltac short_case Htl :=
  cbv beta iota; rewrite Htl; reflexivity.

Lemma pass_three_refines (s : str) :
  re_sub_hex 3 decode_sequence s = Ret (spec_pass_three s).
Proof.
  induction s as [s IH] using str_length_ind.
  destruct s as [|c tl]; [reflexivity|].
  assert (Htl : re_sub_hex 3 decode_sequence tl = Ret (spec_pass_three tl))
    by (apply IH; simpl; lia).
  rewrite re_sub_hex_cons, match_hex_three, spec_pass_three_cons.
  do 11 (destruct tl as [|? tl]; [short_case Htl|]).
  cbv beta iota.
  match goal with
  | |- context [is_group ?a ?b ?c ?d && is_group ?e ?f ?g ?h
                && is_group ?i ?j ?k ?l] =>
      destruct (is_group a b c d) eqn:G1; cbn [andb];
      [destruct (is_group e f g h) eqn:G2; cbn [andb];
       [destruct (is_group i j k l) eqn:G3|]|]
  end; try (rewrite Htl; reflexivity).
  apply is_group_hex in G1 as [? ?], G2 as [? ?], G3 as [? ?].
  rewrite decode_sequence_three by assumption.
  cbn [bind Nat.mul Nat.add Nat.pred skipn].
  rewrite IH by (cbn [length]; lia).
  reflexivity.
Qed.

Lemma pass_two_refines (s : str) :
  re_sub_hex 2 decode_sequence s = Ret (spec_pass_two s).
Proof.
  induction s as [s IH] using str_length_ind.
  destruct s as [|c tl]; [reflexivity|].
  assert (Htl : re_sub_hex 2 decode_sequence tl = Ret (spec_pass_two tl))
    by (apply IH; simpl; lia).
  rewrite re_sub_hex_cons, match_hex_two, spec_pass_two_cons.
  do 7 (destruct tl as [|? tl]; [short_case Htl|]).
  cbv beta iota.
  match goal with
  | |- context [is_group ?a ?b ?c ?d && is_group ?e ?f ?g ?h] =>
      destruct (is_group a b c d) eqn:G1; cbn [andb];
      [destruct (is_group e f g h) eqn:G2|]
  end; try (rewrite Htl; reflexivity).
  apply is_group_hex in G1 as [? ?], G2 as [? ?].
  rewrite decode_sequence_two by assumption.
  cbn [bind Nat.mul Nat.add Nat.pred skipn].
  rewrite IH by (cbn [length]; lia).
  reflexivity.
Qed.

Lemma pass_one_refines (s : str) :
  re_sub_hex 1 decode_single s = Ret (spec_pass_one s).
Proof.
  induction s as [s IH] using str_length_ind.
  destruct s as [|c tl]; [reflexivity|].
  assert (Htl : re_sub_hex 1 decode_single tl = Ret (spec_pass_one tl))
    by (apply IH; simpl; lia).
  rewrite re_sub_hex_cons, match_hex_one, spec_pass_one_cons.
  do 3 (destruct tl as [|? tl]; [short_case Htl|]).
  cbv beta iota.
  match goal with
  | |- context [is_group ?a ?b ?c ?d] =>
      destruct (is_group a b c d) eqn:G1
  end; try (rewrite Htl; reflexivity).
  apply is_group_hex in G1 as [? ?].
  rewrite decode_single_one by assumption.
  cbn [bind Nat.mul Nat.add Nat.pred skipn].
  rewrite IH by (cbn [length]; lia).
  reflexivity.
Qed.

Lemma decode_refines (s : str) :
  _decode_literal_hex_sequences (PyStr s) = Ret (spec_decode s).
Proof.
  unfold _decode_literal_hex_sequences, spec_decode. cbn [as_str].
  rewrite pass_three_refines. cbn [bind].
  rewrite pass_two_refines. cbn [bind].
  apply pass_one_refines.
Qed.

(** ** The shape of a joined token list *)

Lemma isspace_32 : isspace 32 = true.
Proof. reflexivity. Qed.

Lemma word_no_32 (w : str) : word w -> ~ In 32 w.
Proof. intros [_ Hw] H. apply Hw in H. discriminate. Qed.

Lemma join_starts (ws : list str) :
  Forall word ws -> ws <> [] -> starts_space (join [32] ws) = false.
Proof.
  intros Hws Hne. destruct ws as [|w ws]; [congruence|].
  inversion Hws as [|? ? [Hw1 Hw2] _]; subst.
  destruct w as [|x w]; [congruence|].
  assert (Hx : isspace x = false) by (apply Hw2; left; reflexivity).
  destruct ws; exact Hx.
Qed.

Lemma word_last (w : str) :
  word w -> exists w' x, w = w' ++ [x] /\ isspace x = false.
Proof.
  intros [Hne Hw].
  destruct (exists_last Hne) as [w' [x ->]].
  exists w', x. split; [reflexivity|].
  apply Hw. apply in_or_app. right. left. reflexivity.
Qed.

Lemma single_spaced_join (ws : list str) :
  Forall word ws -> single_spaced (join [32] ws).
Proof.
  induction 1 as [|w ws Hw Hws IH]; intros a c b Heq Hc.
  - destruct a; discriminate.
  - destruct ws as [|w' ws].
    + simpl in Heq. destruct Hw as [_ Hw].
      rewrite (Hw c) in Hc; [discriminate|].
      rewrite Heq. apply in_or_app. right. left. reflexivity.
    + rewrite join_cons in Heq by discriminate.
      change ([32] ++ join [32] (w' :: ws))
        with (32 :: join [32] (w' :: ws)) in Heq.
      set (j := join [32] (w' :: ws)) in *.
      assert (Hj : starts_space j = false)
        by (apply join_starts; [exact Hws | discriminate]).
      apply app_eq_app in Heq as [l [[E1 E2]|[E1 E2]]].
      * destruct l as [|x l].
        -- simpl in E2. inversion E2; subst c b.
           rewrite app_nil_r in E1. subst a.
           split; [reflexivity|]. split; [apply word_last; exact Hw|].
           destruct j as [|y j']; [discriminate|]. exists y, j'. auto.
        -- simpl in E2. inversion E2; subst x.
           destruct Hw as [_ Hw]. rewrite (Hw c) in Hc; [discriminate|].
           rewrite E1. apply in_or_app. right. left. reflexivity.
      * destruct l as [|x l].
        -- simpl in E2. inversion E2; subst c b.
           rewrite app_nil_r in E1. subst a.
           split; [reflexivity|]. split; [apply word_last; exact Hw|].
           destruct j as [|y j']; [discriminate|]. exists y, j'. auto.
        -- simpl in E2. inversion E2 as [[Ex Ej]]. subst x.
           destruct (IH l c b Ej Hc) as [H32 [[a' [x [Ea Hx]]] Hb]].
           split; [exact H32|]. split; [|exact Hb].
           exists (w ++ 32 :: a'), x. split; [|exact Hx].
           rewrite E1, Ea, <- app_assoc. reflexivity.
Qed.

Lemma single_spaced_strip (out : str) : single_spaced out -> strip out = out.
Proof.
  intros H. unfold strip.
  assert (Hl : lstrip out = out).
  { destruct out as [|c tl]; [reflexivity|]. simpl.
    destruct (isspace c) eqn:E; [|reflexivity].
    destruct (H [] c tl eq_refl E) as [_ [[a' [x [Ea _]]] _]].
    destruct a'; discriminate. }
  rewrite Hl. unfold rstrip.
  destruct (rev out) as [|c r] eqn:Er.
  - apply (f_equal (@rev N)) in Er. rewrite rev_involutive in Er.
    symmetry; exact Er.
  - assert (Ho : out = rev r ++ [c]).
    { apply (f_equal (@rev N)) in Er. rewrite rev_involutive in Er.
      exact Er. }
    simpl. destruct (isspace c) eqn:E.
    + destruct (H (rev r) c [] Ho E) as [_ [_ [y [b' [Eb _]]]]].
      discriminate.
    + rewrite Ho. simpl. reflexivity.
Qed.

Lemma in_join (ws : list str) (c : N) :
  In c (join [32] ws) -> c = 32 \/ exists w, In w ws /\ In c w.
Proof.
  induction ws as [|w ws IH]; [intros []|].
  destruct ws as [|w' ws].
  - simpl. intros H. right. exists w. auto.
  - rewrite join_cons by discriminate. intros H.
    apply in_app_or in H as [H|H]; [right; exists w; simpl; auto|].
    apply in_app_or in H as [[<-|[]]|H]; [left; reflexivity|].
    destruct (IH H) as [->|[w0 [Hw0 Hc]]]; [left; reflexivity|].
    right. exists w0. split; [right; exact Hw0 | exact Hc].
Qed.

Lemma in_split (s w : str) (c : N) : In w (split s) -> In c w -> In c s.
Proof.
  revert w; induction s as [|x s IH]; intros w; [intros []|].
  simpl. destruct (isspace x); [intros Hw Hc; right; eapply IH; eauto|].
  unfold cons_word.
  destruct (starts_space s).
  - intros [<-|Hw] Hc; [destruct Hc as [<-|[]]; left; reflexivity|].
    right; eapply IH; eauto.
  - destruct (split s) as [|w0 ws0].
    + intros [<-|[]] Hc. destruct Hc as [<-|[]]; left; reflexivity.
    + intros [<-|Hw] Hc.
      * destruct Hc as [<-|Hc]; [left; reflexivity|].
        right. apply (IH w0); [left; reflexivity | exact Hc].
      * right. apply (IH w); [right; exact Hw | exact Hc].
Qed.

Lemma split_sep_word (w r : str) :
  ~ In 32 w -> split_sep 32 (w ++ 32 :: r) = w :: split_sep 32 r.
Proof.
  induction w as [|x w IH]; intros Hn; [reflexivity|].
  simpl. destruct (N.eqb_spec x 32) as [->|Hx].
  - exfalso. apply Hn. left. reflexivity.
  - rewrite IH; [reflexivity|]. intros H; apply Hn; right; exact H.
Qed.

Lemma split_sep_single (w : str) : ~ In 32 w -> split_sep 32 w = [w].
Proof.
  induction w as [|x w IH]; intros Hn; [reflexivity|].
  simpl. destruct (N.eqb_spec x 32) as [->|Hx].
  - exfalso. apply Hn. left. reflexivity.
  - rewrite IH; [reflexivity|]. intros H; apply Hn; right; exact H.
Qed.

Lemma split_sep_join (ws : list str) :
  Forall word ws -> ws <> [] -> split_sep 32 (join [32] ws) = ws.
Proof.
  induction 1 as [|w ws Hw Hws IH]; intros Hne; [congruence|].
  destruct ws as [|w' ws].
  - apply split_sep_single, word_no_32, Hw.
  - rewrite join_cons by discriminate.
    change ([32] ++ join [32] (w' :: ws))
      with (32 :: join [32] (w' :: ws)).
    rewrite split_sep_word by (apply word_no_32, Hw).
    rewrite IH by discriminate. reflexivity.
Qed.

(** ** Step 4 as a character-wise map *)

Lemma flat_map_flat_map {A B C : Type} (f : A -> list B) (g : B -> list C)
    (l : list A) :
  flat_map g (flat_map f l) = flat_map (fun x => flat_map g (f x)) l.
Proof.
  induction l as [|x l IH]; [reflexivity|].
  simpl. rewrite flat_map_app, IH. reflexivity.
Qed.

Lemma replace_backslash (u : str) :
  replace (lit "\") (lit " ") u = flat_map backslash_to_space u.
Proof. apply (replace_single 92 [32] u). Qed.

Lemma punctuation_replaces (u : str) :
  replace (lit "'") []
    (replace (lit "-") (lit " ")
       (replace (lit ",") [] (replace (lit ".") [] u)))
  = flat_map punctuation_image u.
Proof.
  change (lit "'") with [39]. change (lit "-") with [45].
  change (lit ",") with [44]. change (lit ".") with [46].
  change (lit " ") with [32].
  rewrite !replace_single, !flat_map_flat_map.
  apply flat_map_ext. intros c. unfold punctuation_image.
  destruct (N.eqb_spec c 46) as [->|H46]; [reflexivity|].
  destruct (N.eqb_spec c 44) as [->|H44]; [reflexivity|].
  destruct (N.eqb_spec c 45) as [->|H45]; [reflexivity|].
  destruct (N.eqb_spec c 39) as [->|H39]; [reflexivity|].
  cbn [flat_map app orb].
  apply N.eqb_neq in H46, H44, H45, H39.
  rewrite H44. cbn [flat_map app]. rewrite H45. cbn [flat_map app].
  rewrite H39. reflexivity.
Qed.

Lemma in_punctuation_image (c d : N) :
  In c (punctuation_image d) ->
  (c = d \/ c = 32) /\ c <> 46 /\ c <> 44 /\ c <> 45 /\ c <> 39.
Proof.
  unfold punctuation_image.
  destruct (N.eqb_spec d 46) as [->|H46]; [intros []|].
  destruct (N.eqb_spec d 44) as [->|H44]; [intros []|].
  destruct (N.eqb_spec d 39) as [->|H39]; [intros []|].
  destruct (N.eqb_spec d 45) as [->|H45]; cbn [orb].
  - intros [<-|[]]. repeat split; auto; discriminate.
  - intros [<-|[]]. repeat split; auto.
Qed.

Lemma in_backslash_to_space (c d : N) :
  In c (backslash_to_space d) -> (c = d \/ c = 32) /\ c <> 92.
Proof.
  unfold backslash_to_space.
  destruct (N.eqb_spec d 92) as [->|H]; intros [<-|[]].
  - split; [auto | discriminate].
  - split; auto.
Qed.

Lemma in_step_4 (u : str) (c : N) :
  In c (flat_map punctuation_image (flat_map backslash_to_space u)) ->
  (In c u \/ c = 32)
  /\ c <> 46 /\ c <> 44 /\ c <> 45 /\ c <> 39 /\ c <> 92.
Proof.
  intros H. apply in_flat_map in H as [d [Hd Hc]].
  apply in_flat_map in Hd as [e [He Hd]].
  apply in_punctuation_image in Hc as [Hc1 Hc2].
  apply in_backslash_to_space in Hd as [Hd1 Hd2].
  split; [|intuition congruence].
  destruct Hc1 as [->| ->]; [|auto].
  destruct Hd1 as [->| ->]; auto.
Qed.

Lemma in_standardized (t : str) (c : N) :
  In c (standardized t) ->
  (In c t \/ c = 32)
  /\ c <> 46 /\ c <> 44 /\ c <> 45 /\ c <> 39 /\ c <> 92.
Proof.
  intros H. apply in_step_4 in H as [[H|H] Hp]; (split; [|exact Hp]).
  - left. apply (in_replace_pair 92 32). exact H.
  - right. exact H.
Qed.

Lemma in_lstrip (s : str) (c : N) : In c (lstrip s) -> In c s.
Proof.
  induction s as [|x s IH]; [intros []|].
  simpl. destruct (isspace x); [intros H; right; apply IH; exact H|auto].
Qed.

Lemma in_strip (s : str) (c : N) : In c (strip s) -> In c s.
Proof.
  unfold strip, rstrip. intros H.
  apply in_rev, in_lstrip in H. apply in_rev in H.
  apply in_lstrip. exact H.
Qed.

(** ** The tail of the pipeline: lines 102 to 108 *)

Lemma kept_tokens_words (x : str) : Forall word (kept_tokens x).
Proof.
  apply Forall_forall. intros w Hw.
  apply filter_In in Hw as [Hw _].
  exact (proj1 (Forall_forall _ _) (split_words x) w Hw).
Qed.

Lemma in_kept_tokens (x w : str) (c : N) :
  In w (kept_tokens x) -> In c w -> In c x.
Proof.
  intros Hw Hc. apply filter_In in Hw as [Hw _].
  eapply in_split; eauto.
Qed.

Lemma strip_suffixes_strip (x : str) :
  _strip_suffixes (PyStr (strip x)) = join [32] (kept_tokens x).
Proof.
  unfold _strip_suffixes, kept_tokens, is_suffix_token. cbn [as_str].
  rewrite split_strip. reflexivity.
Qed.

Lemma strip_joined (x : str) :
  strip (join [32] (kept_tokens x)) = join [32] (kept_tokens x).
Proof. apply single_spaced_strip, single_spaced_join, kept_tokens_words. Qed.

Lemma joined_no_backslash (x : str) :
  ~ In 92 x -> ~ In 92 (join [32] (kept_tokens x)).
Proof.
  intros Hx H. apply in_join in H as [H|[w [Hw Hc]]]; [discriminate|].
  apply Hx. eapply in_kept_tokens; eauto.
Qed.

Lemma tail_of_pipeline (x : str) :
  ~ In 92 x ->
  strip (re_sub_backslash_s (lit " ")
           (_strip_suffixes
              (PyStr (strip (re_sub_backslash_s (lit " ") x)))))
  = join [32] (kept_tokens x).
Proof.
  intros Hx.
  rewrite (re_sub_backslash_s_no_backslash _ x Hx).
  rewrite strip_suffixes_strip.
  rewrite re_sub_backslash_s_no_backslash by (apply joined_no_backslash, Hx).
  apply strip_joined.
Qed.

Lemma standardized_no_backslash (t : str) : ~ In 92 (standardized t).
Proof. intros H. apply in_standardized in H. intuition congruence. Qed.

Lemma standardized_without_line_94_no_backslash (t : str) :
  ~ In 92 (standardized_without_line_94 t).
Proof. intros H. apply in_step_4 in H. intuition congruence. Qed.

(** ** Closed forms *)

Lemma text_before_line_102_closed (U : UnicodeData) (s : str) :
  text_before_line_102 U s = Ret (standardized (folded U s)).
Proof.
  unfold text_before_line_102. rewrite decode_refines. cbn [bind].
  rewrite punctuation_replaces, replace_backslash. reflexivity.
Qed.

Lemma text_before_line_108_closed (U : UnicodeData) (s : str) :
  text_before_line_108 U s
  = Ret (join [32] (kept_tokens (standardized (folded U s)))).
Proof.
  unfold text_before_line_108. rewrite text_before_line_102_closed.
  cbn [bind].
  rewrite re_sub_backslash_s_no_backslash
    by apply standardized_no_backslash.
  rewrite strip_suffixes_strip. reflexivity.
Qed.

Lemma normalize_closed (U : UnicodeData) (s : str) :
  normalize_name_for_blocking U (PyStr s)
  = Ret (join [32] (kept_tokens (standardized (folded U s)))).
Proof.
  unfold normalize_name_for_blocking. cbn [as_str].
  rewrite decode_refines. cbn [bind].
  rewrite punctuation_replaces, replace_backslash.
  f_equal. apply (tail_of_pipeline (standardized (folded U s))).
  apply standardized_no_backslash.
Qed.

Lemma normalize_without_line_94_closed (U : UnicodeData) (s : str) :
  normalize_without_line_94 U (PyStr s)
  = Ret (join [32]
           (kept_tokens (standardized_without_line_94 (folded U s)))).
Proof.
  unfold normalize_without_line_94. cbn [as_str].
  rewrite decode_refines. cbn [bind].
  rewrite punctuation_replaces, replace_backslash.
  f_equal. apply (tail_of_pipeline (standardized_without_line_94 (folded U s))).
  apply standardized_without_line_94_no_backslash.
Qed.

Lemma normalize_strip_only_closed (U : UnicodeData) (s : str) :
  normalize_strip_only U (PyStr s)
  = Ret (join [32] (kept_tokens (standardized (folded U s)))).
Proof.
  unfold normalize_strip_only. cbn [as_str].
  rewrite decode_refines. cbn [bind].
  rewrite punctuation_replaces, replace_backslash.
  f_equal. change (replace (lit "\ ") (lit " ") (folded U s))
    with (replace [92; 32] [32] (folded U s)).
  fold (standardized (folded U s)).
  rewrite strip_suffixes_strip. apply strip_joined.
Qed.

(** ** Line 94 only adds or removes spaces next to spaces *)

Lemma line_94_extra_spaces (t : str) :
  extra_spaces (flat_map backslash_to_space t)
               (flat_map backslash_to_space (replace [92; 32] [32] t)).
Proof.
  induction t as [t IH] using str_length_ind.
  destruct t as [|c tl]; [constructor|].
  destruct (starts_with [92; 32] (c :: tl)) eqn:E.
  - destruct tl as [|d rest];
      [cbn [starts_with] in E; rewrite andb_false_r in E; discriminate|].
    cbn [starts_with] in E. rewrite andb_true_r in E.
    apply andb_true_iff in E as [Ec Ed].
    apply N.eqb_eq in Ec, Ed. subst c d.
    rewrite replace_pair_hit.
    change (extra_spaces
              (32 :: 32 :: flat_map backslash_to_space rest)
              (32 :: flat_map backslash_to_space
                       (replace [92; 32] [32] rest))).
    apply es_extra, es_cons, IH. simpl. lia.
  - rewrite (replace_pair_miss _ _ _ _ _ E).
    cbn [flat_map]. apply extra_spaces_app, IH. simpl. lia.
Qed.

Lemma kept_tokens_without_line_94 (t : str) :
  kept_tokens (standardized_without_line_94 t) = kept_tokens (standardized t).
Proof.
  unfold kept_tokens. f_equal.
  apply extra_spaces_split, extra_spaces_flat_map; [reflexivity|].
  apply line_94_extra_spaces.
Qed.

(** ** The fragment of the database obeys the laws of [lower] *)

Lemma lower_char_idempotent (c : N) : lower_char (lower_char c) = lower_char c.
Proof.
  unfold lower_char.
  destruct ((65 <=? c) && (c <=? 90)
            || (192 <=? c) && (c <=? 222) && negb (c =? 215)) eqn:E;
    [|rewrite E; reflexivity].
  revert E.
  repeat match goal with
         | |- context [N.leb ?a ?b] => destruct (N.leb_spec a b)
         | |- context [N.eqb ?a ?b] => destruct (N.eqb_spec a b)
         end;
    cbn [andb orb negb]; intros E; try discriminate E; try reflexivity; lia.
Qed.

Lemma fragment_lower_laws : LowerLaws ucd_fragment.
Proof.
  split.
  - intros t c H. cbn [lower ucd_fragment] in *. unfold fragment_lower in *.
    apply in_map_iff in H as [x [<- _]].
    cbn [map]. rewrite lower_char_idempotent. reflexivity.
  - reflexivity.
Qed.

(** ** Suffix tokens *)

Lemma is_suffix_token_in (tok : str) :
  is_suffix_token tok = true <-> In tok suffix_tokens.
Proof.
  unfold is_suffix_token. rewrite existsb_exists. split.
  - intros [x [Hx E]]. apply str_eqb_eq in E. subst x. exact Hx.
  - intros H. exists tok. split; [exact H | apply str_eqb_refl].
Qed.

Lemma kept_tokens_not_suffix (x tok : str) :
  In tok (kept_tokens x) -> ~ In tok suffix_tokens.
Proof.
  intros H Hs. apply filter_In in H as [_ H].
  apply is_suffix_token_in in Hs. rewrite Hs in H. discriminate.
Qed.

Lemma joined_no_suffix_token (x : str) :
  no_suffix_token (join [32] (kept_tokens x)).
Proof.
  intros tok H.
  destruct (kept_tokens x) as [|w ws] eqn:E.
  - simpl in H. destruct H as [<-|[]].
    intros Hs. apply is_suffix_token_in in Hs. discriminate.
  - rewrite split_sep_join in H; [| |discriminate].
    + apply (kept_tokens_not_suffix x). rewrite E. exact H.
    + rewrite <- E. apply kept_tokens_words.
Qed.

Lemma without_nonspacing_marks_filter (U : UnicodeData) (l : str) :
  filter (fun ch => negb (str_eqb (category U ch) (lit "Mn"))) l
  = without_nonspacing_marks U l.
Proof.
  induction l as [|c l IH]; [reflexivity|].
  simpl. destruct (str_eqb (category U c) (lit "Mn")); simpl;
    rewrite IH; reflexivity.
Qed.

(** ** Idempotence, for outputs that the Unicode steps leave alone *)

Lemma match_hex_no_backslash (k : nat) (c : N) (tl : str) :
  c <> 92 -> match_hex (S k) (c :: tl) = None.
Proof.
  intros Hc. unfold match_hex. cbn [match_hex_groups].
  destruct tl as [|x [|h1 [|h2 rest]]]; try reflexivity.
  apply N.eqb_neq in Hc. rewrite Hc. reflexivity.
Qed.

Lemma re_sub_hex_no_backslash (k : nat) (repl : re_match -> exc str)
    (s : str) :
  ~ In 92 s -> re_sub_hex (S k) repl s = Ret s.
Proof.
  unfold re_sub_hex.
  induction s as [|c s IH]; intros Hn; [reflexivity|].
  cbn [re_sub_hex_from].
  rewrite match_hex_no_backslash by (intros ->; apply Hn; left; reflexivity).
  rewrite IH by (intros H; apply Hn; right; exact H).
  reflexivity.
Qed.

Lemma decode_no_backslash (s : str) :
  ~ In 92 s -> _decode_literal_hex_sequences (PyStr s) = Ret s.
Proof.
  intros Hn. unfold _decode_literal_hex_sequences. cbn [as_str].
  rewrite !re_sub_hex_no_backslash by exact Hn. cbn [bind].
  rewrite !re_sub_hex_no_backslash by exact Hn. cbn [bind].
  apply re_sub_hex_no_backslash. exact Hn.
Qed.

Lemma spec_decode_no_backslash (s : str) : ~ In 92 s -> spec_decode s = s.
Proof.
  intros Hn. apply decode_no_backslash in Hn.
  rewrite decode_refines in Hn. injection Hn as E. exact E.
Qed.

Lemma flat_map_fixed (f : N -> str) (l : str) :
  (forall c, In c l -> f c = [c]) -> flat_map f l = l.
Proof.
  induction l as [|c l IH]; intros H; [reflexivity|].
  cbn [flat_map]. rewrite (H c) by (left; reflexivity).
  rewrite IH by (intros d Hd; apply H; right; exact Hd). reflexivity.
Qed.

Lemma replace_pair_absent (a b : N) (new s : str) :
  ~ In a s -> replace [a; b] new s = s.
Proof.
  induction s as [|c s IH]; intros Hn; [reflexivity|].
  rewrite replace_pair_miss.
  - rewrite IH by (intros H; apply Hn; right; exact H). reflexivity.
  - cbn [starts_with]. destruct (N.eqb_spec a c) as [->|]; [|reflexivity].
    exfalso. apply Hn. left. reflexivity.
Qed.

Lemma standardized_fixed (out : str) :
  no_target_punctuation out -> standardized out = out.
Proof.
  intros Hp. unfold standardized.
  rewrite replace_pair_absent
    by (intros H; apply Hp in H; intuition congruence).
  rewrite (flat_map_fixed backslash_to_space).
  - apply flat_map_fixed. intros c Hc. apply Hp in Hc.
    destruct Hc as [H46 [H44 [H45 [H39 _]]]].
    unfold punctuation_image.
    apply N.eqb_neq in H46, H44, H45, H39.
    rewrite H46, H44, H45, H39. reflexivity.
  - intros c Hc. apply Hp in Hc. destruct Hc as [_ [_ [_ [_ H92]]]].
    unfold backslash_to_space. apply N.eqb_neq in H92.
    rewrite H92. reflexivity.
Qed.

Lemma filter_filter {A : Type} (f : A -> bool) (l : list A) :
  filter f (filter f l) = filter f l.
Proof.
  induction l as [|x l IH]; [reflexivity|].
  simpl. destruct (f x) eqn:E; [|exact IH].
  simpl. rewrite E, IH. reflexivity.
Qed.

Lemma kept_tokens_joined (x : str) :
  kept_tokens (join [32] (kept_tokens x)) = kept_tokens x.
Proof.
  unfold kept_tokens at 1.
  rewrite split_join by apply kept_tokens_words.
  apply filter_filter.
Qed.

Lemma joined_no_target_punctuation (t : str) :
  no_target_punctuation (join [32] (kept_tokens (standardized t))).
Proof.
  intros c H. apply in_join in H as [->|[w [Hw Hc]]];
    [repeat split; discriminate|].
  assert (Hx : In c (standardized t)) by (eapply in_kept_tokens; eauto).
  apply in_standardized in Hx. tauto.
Qed.

(** When accent stripping and lowercasing leave an output of the
    orchestrator as it is, so does the orchestrator. *)
Lemma idempotent_when_stable (U : UnicodeData) (s out : str) :
  normalize_name_for_blocking U (PyStr s) = Ret out ->
  _strip_accents U (PyStr out) = out ->
  lower U out = out ->
  normalize_name_for_blocking U (PyStr out) = Ret out.
Proof.
  intros Hout Hacc Hlow.
  rewrite normalize_closed in Hout. injection Hout as E.
  assert (Hp : no_target_punctuation out)
    by (rewrite <- E; apply joined_no_target_punctuation).
  assert (H92 : ~ In 92 out)
    by (intros H; apply Hp in H; intuition congruence).
  rewrite normalize_closed. f_equal.
  assert (Hf : folded U out = out).
  { unfold folded. rewrite spec_decode_no_backslash by exact H92.
    rewrite Hacc, Hlow, <- E. apply strip_joined. }
  rewrite Hf, standardized_fixed by exact Hp.
  rewrite <- E at 1. rewrite kept_tokens_joined. exact E.
Qed.

(** * The claims *)

(** C1, as amended.  On the eight characters a, b, backslash, x, Z, Z, c, d
    the decoder finds no escape and returns the text unchanged, and the
    orchestrator returns a, b, space, x, z, z, c, d: the fragment is neither
    decoded nor dropped and nothing is raised, but line 95 turns its
    backslash into a space. *)
Theorem C1_malformed_escape_becomes_space :
  _decode_literal_hex_sequences (PyStr (lit "ab\xZZcd"))
  = Ret (lit "ab\xZZcd")
  /\ normalize_name_for_blocking ucd_fragment (PyStr (lit "ab\xZZcd"))
     = Ret (lit "ab xzzcd").
Proof. split; vm_compute; reflexivity. Qed.

(** C1, as stated, fails: the output is not a, b, backslash, x, z, z, c, d. *)
Lemma C1_backslash_is_not_kept :
  normalize_name_for_blocking ucd_fragment (PyStr (lit "ab\xZZcd"))
  <> Ret (lit "ab\xzzcd").
Proof. vm_compute. intros H. discriminate H. Qed.

(** C2 fails on the three characters U+302E, period, U+1B44.  The period
    keeps the two marks (combining classes 224 and 9, category Mc) apart
    in the first call; it is deleted by line 96, so the second call
    receives them adjacent and NFD puts them in canonical order. *)
Theorem C2_second_call_reorders_marks :
  normalize_name_for_blocking ucd_fragment (PyStr [12334; 46; 6980])
  = Ret [12334; 6980]
  /\ normalize_name_for_blocking ucd_fragment (PyStr [12334; 6980])
     = Ret [6980; 12334].
Proof. split; vm_compute; reflexivity. Qed.

(** C3, as amended.  For every input string the output is left alone by
    [lower] character by character, contains no period, comma, hyphen,
    apostrophe or backslash, has single spaces as its only whitespace and
    none at either end, and none of its space-delimited tokens is a suffix
    token; and the input "  John   Smith  " gives "john smith". *)
Theorem C3_output_is_normalized :
  (forall U : UnicodeData, LowerLaws U ->
   forall s : str, exists out,
     normalize_name_for_blocking U (PyStr s) = Ret out
     /\ normalized_form U out)
  /\ normalize_name_for_blocking ucd_fragment (PyStr (lit "  John   Smith  "))
     = Ret (lit "john smith").
Proof.
  split; [|vm_compute; reflexivity].
  intros U [Hfix Hsp] s.
  exists (join [32] (kept_tokens (standardized (folded U s)))).
  split; [apply normalize_closed|].
  assert (Hin : forall c,
             In c (join [32] (kept_tokens (standardized (folded U s)))) ->
             c = 32 \/ In c (standardized (folded U s))).
  { intros c H. apply in_join in H as [H|[w [Hw Hc]]]; [auto|].
    right. eapply in_kept_tokens; eauto. }
  split; [|split; [|split; [|split]]].
  - intros c H. apply Hin in H as [->|H]; [exact Hsp|].
    apply in_standardized in H as [[H| ->] _]; [|exact Hsp].
    unfold folded in H. apply in_strip in H. eapply Hfix; eauto.
  - intros c H. apply Hin in H as [->|H];
      [repeat split; discriminate|].
    apply in_standardized in H. tauto.
  - apply single_spaced_join, kept_tokens_words.
  - apply strip_joined.
  - apply joined_no_suffix_token.
Qed.

Lemma C3_output_is_normalized_witness :
  exists out,
    normalize_name_for_blocking ucd_fragment (PyStr (lit "Mary-Jane  O'Neil"))
    = Ret out
    /\ normalized_form ucd_fragment out.
Proof.
  exact (proj1 C3_output_is_normalized ucd_fragment fragment_lower_laws
               (lit "Mary-Jane  O'Neil")).
Defined.

(** C3, as stated, fails: U+2102 DOUBLE-STRUCK CAPITAL C is an uppercase
    letter (category Lu) without a lowercase form, and it is returned as
    it is. *)
Lemma C3_uppercase_letter_survives :
  normalize_name_for_blocking ucd_fragment (PyStr [8450]) = Ret [8450]
  /\ ~ normalized_form_by_category ucd_fragment [8450].
Proof.
  split; [vm_compute; reflexivity|].
  intros [H _]. apply (H 8450); [left; reflexivity|].
  vm_compute. reflexivity.
Qed.

(** C4.  Whatever the value, the orchestrator returns a string and raises
    nothing; when the value is not a string, the string returned is
    empty.  The two callbacks of the decoder, where the only operations
    that can raise are found, return on every match object. *)
Theorem C4_total_and_non_throwing :
  (forall (U : UnicodeData) (v : pyval), exists out,
     normalize_name_for_blocking U v = Ret out
     /\ ((forall s, v <> PyStr s) -> out = []))
  /\ (forall m : re_match, exists t, decode_sequence m = Ret t)
  /\ (forall m : re_match, exists t, decode_single m = Ret t).
Proof.
  split; [|split; [exact decode_sequence_returns
                  | exact decode_single_returns]].
  intros U v.
  destruct v as [| b | z | bs | s | l];
    try (exists []; split; [reflexivity | intros _; reflexivity]).
  eexists. split; [apply normalize_closed|].
  intros H. exfalso. apply (H s). reflexivity.
Qed.

Lemma C4_total_and_non_throwing_witness :
  normalize_name_for_blocking ucd_fragment (PyInt 42) = Ret []
  /\ normalize_name_for_blocking ucd_fragment (PyList [PyNone; PyStr (lit "a")])
     = Ret [].
Proof.
  split.
  - destruct (proj1 C4_total_and_non_throwing ucd_fragment (PyInt 42))
      as [out [H E]].
    rewrite H. f_equal. apply E. intros s. discriminate.
  - destruct (proj1 C4_total_and_non_throwing ucd_fragment
                (PyList [PyNone; PyStr (lit "a")])) as [out [H E]].
    rewrite H. f_equal. apply E. intros s. discriminate.
Defined.

(** C5.  The decoder is the composition of the three passes of the
    specification, in that order: three groups, then two groups, each
    replaced by its UTF-8 decoding or left as it is when the bytes do not
    decode, then single groups replaced by the code point they name, which
    is at most 255.  So the three groups of the euro sign decode to U+20AC,
    the two groups ff, fe are not UTF-8 and are left to the last pass, and
    the text Jos\xc3\xa9 Garc\xc3\xada normalizes to "jose garcia". *)
Theorem C5_decoder_passes :
  (forall s : str,
     _decode_literal_hex_sequences (PyStr s)
     = Ret (spec_pass_one (spec_pass_two (spec_pass_three s))))
  /\ (forall h1 h2 : N, hex_pair h1 h2 <= 255)
  /\ _decode_literal_hex_sequences (PyStr (lit "\xe2\x82\xac")) = Ret [8364]
  /\ spec_pass_two (lit "\xff\xfe") = lit "\xff\xfe"
  /\ _decode_literal_hex_sequences (PyStr (lit "\xff\xfe")) = Ret [255; 254]
  /\ normalize_name_for_blocking ucd_fragment
       (PyStr (lit "Jos\xc3\xa9 Garc\xc3\xada"))
     = Ret (lit "jose garcia").
Proof.
  split; [exact decode_refines|].
  split; [intros h1 h2; apply N.leb_le, hex_pair_byte|].
  repeat split; vm_compute; reflexivity.
Qed.

(** C6.  [_strip_accents] returns, in order, exactly the characters of the
    NFD form of its argument whose category is not Mn; and "José" (with
    U+00E9) and "Jose" both normalize to "jose". *)
Theorem C6_strip_accents_reference :
  (forall (U : UnicodeData) (s : str),
     _strip_accents U (PyStr s) = without_nonspacing_marks U (nfd U s))
  /\ normalize_name_for_blocking ucd_fragment (PyStr (lit "Jos" ++ [233]))
     = Ret (lit "jose")
  /\ normalize_name_for_blocking ucd_fragment (PyStr (lit "Jose"))
     = Ret (lit "jose").
Proof.
  split; [|split; vm_compute; reflexivity].
  intros U s. unfold _strip_accents. cbn [as_str].
  rewrite join_empty_singletons. apply without_nonspacing_marks_filter.
Qed.

(** C7.  The tokens of the result of [_strip_suffixes] are the tokens of
    its argument that are not equal to one of jr, sr, ii, iii, iv, v, in
    their order, and the result is those tokens joined by single spaces;
    "Vincent Price" and "John Smith III" normalize to "vincent price" and
    "john smith", and "Jr. Sr." to the empty string. *)
Theorem C7_suffix_removal_is_token_filtering :
  (forall s : str,
     split (_strip_suffixes (PyStr s))
     = filter (fun tok => negb (is_suffix_token tok)) (split s)
     /\ _strip_suffixes (PyStr s)
        = join (lit " ") (split (_strip_suffixes (PyStr s))))
  /\ (forall tok : str,
        is_suffix_token tok
        = (str_eqb tok (lit "jr") || str_eqb tok (lit "sr")
           || str_eqb tok (lit "ii") || str_eqb tok (lit "iii")
           || str_eqb tok (lit "iv") || str_eqb tok (lit "v")))
  /\ normalize_name_for_blocking ucd_fragment (PyStr (lit "Vincent Price"))
     = Ret (lit "vincent price")
  /\ normalize_name_for_blocking ucd_fragment (PyStr (lit "John Smith III"))
     = Ret (lit "john smith")
  /\ normalize_name_for_blocking ucd_fragment (PyStr (lit "Jr. Sr."))
     = Ret [].
Proof.
  split; [|split; [|repeat split; vm_compute; reflexivity]].
  - intros s.
    assert (E : _strip_suffixes (PyStr s) = join [32] (kept_tokens s))
      by reflexivity.
    assert (Hs : split (join [32] (kept_tokens s)) = kept_tokens s)
      by apply split_join, kept_tokens_words.
    rewrite E, Hs. split; reflexivity.
  - intros tok. unfold is_suffix_token, suffix_tokens. cbn [existsb].
    rewrite orb_false_r, !orb_assoc. reflexivity.
Qed.

(** C8.  For every input, the orchestrator returns what it would return
    with lines 96 to 99 replaced by a single pass over the characters that
    deletes every period, comma and apostrophe, inserting nothing, puts
    one space for every hyphen and leaves every other character alone;
    that pass is what the four [replace] calls compute on any text.  So
    "O'Brien-Smith, Jr." normalizes to "obrien smith", "J.R. Smith" to
    "smith" (the periods join, they do not separate) and "Anne-Marie" to
    "anne marie". *)
Theorem C8_punctuation_standardization :
  (forall (U : UnicodeData) (v : pyval),
     normalize_name_for_blocking U v = normalize_with_punctuation_map U v)
  /\ (forall (U : UnicodeData) (s : str), exists before,
        (text <- _decode_literal_hex_sequences (PyStr s) ;;
         Ret (replace (lit "\") (lit " ")
                (replace (lit "\ ") (lit " ")
                   (strip (lower U (_strip_accents U (PyStr text)))))))
        = Ret before
        /\ text_before_line_102 U s
           = Ret (flat_map punctuation_image before))
  /\ (forall u : str,
        replace (lit "'") []
          (replace (lit "-") (lit " ")
             (replace (lit ",") [] (replace (lit ".") [] u)))
        = flat_map punctuation_image u)
  /\ normalize_name_for_blocking ucd_fragment
       (PyStr (lit "O'Brien-Smith, Jr."))
     = Ret (lit "obrien smith")
  /\ normalize_name_for_blocking ucd_fragment (PyStr (lit "J.R. Smith"))
     = Ret (lit "smith")
  /\ normalize_name_for_blocking ucd_fragment (PyStr (lit "Anne-Marie"))
     = Ret (lit "anne marie").
Proof.
  split; [|split; [|split; [exact punctuation_replaces|]]].
  - intros U v. destruct v as [| b | z | bs | s | l]; try reflexivity.
    unfold normalize_name_for_blocking, normalize_with_punctuation_map.
    cbn [as_str]. rewrite decode_refines. cbn [bind].
    rewrite punctuation_replaces. reflexivity.
  - intros U s. eexists. rewrite decode_refines. cbn [bind].
    split; [reflexivity|].
    unfold text_before_line_102. rewrite decode_refines. cbn [bind].
    rewrite punctuation_replaces. reflexivity.
  - repeat split; vm_compute; reflexivity.
Qed.

(** C9.  Deleting line 94 changes the output for no input. *)
Theorem C9_line_94_is_redundant (U : UnicodeData) (v : pyval) :
  normalize_without_line_94 U v = normalize_name_for_blocking U v.
Proof.
  destruct v as [| b | z | bs | s | l]; try reflexivity.
  rewrite normalize_without_line_94_closed, normalize_closed.
  rewrite kept_tokens_without_line_94. reflexivity.
Qed.

(** C10.  The pattern of lines 102 and 108 is a backslash followed by
    letters s, so it matches no whitespace.  The texts that reach these
    two lines contain no backslash, so both substitutions return them
    unchanged, and replacing both by a plain [strip] changes the output
    for no input.  After line 102 a run of three spaces is still there:
    it is [_strip_suffixes] that collapses it. *)
Theorem C10_whitespace_substitutions_are_identity :
  (forall (U : UnicodeData) (s : str),
     normalize_name_for_blocking U (PyStr s)
     = (text <- text_before_line_108 U s ;;
        Ret (strip (re_sub_backslash_s (lit " ") text))))
  /\ (forall (U : UnicodeData) (s : str), exists text,
        text_before_line_102 U s = Ret text
        /\ ~ In 92 text
        /\ re_sub_backslash_s (lit " ") text = text)
  /\ (forall (U : UnicodeData) (s : str), exists text,
        text_before_line_108 U s = Ret text
        /\ ~ In 92 text
        /\ re_sub_backslash_s (lit " ") text = text)
  /\ (forall (U : UnicodeData) (v : pyval),
        normalize_strip_only U v = normalize_name_for_blocking U v)
  /\ re_sub_backslash_s (lit " ") (lit "a\sssb  c") = lit "a b  c"
  /\ text_before_line_102 ucd_fragment (lit "John   Smith")
     = Ret (lit "john   smith")
  /\ strip (re_sub_backslash_s (lit " ") (lit "john   smith"))
     = lit "john   smith"
  /\ text_before_line_108 ucd_fragment (lit "John   Smith")
     = Ret (lit "john smith").
Proof.
  split; [|split; [|split; [|split]]].
  - intros U s. unfold normalize_name_for_blocking, text_before_line_108,
      text_before_line_102. cbn [as_str].
    destruct (_decode_literal_hex_sequences (PyStr s)); reflexivity.
  - intros U s. eexists. split; [apply text_before_line_102_closed|].
    split; [apply standardized_no_backslash|].
    apply re_sub_backslash_s_no_backslash, standardized_no_backslash.
  - intros U s. eexists. split; [apply text_before_line_108_closed|].
    split; [apply joined_no_backslash, standardized_no_backslash|].
    apply re_sub_backslash_s_no_backslash, joined_no_backslash,
      standardized_no_backslash.
  - intros U v. destruct v as [| b | z | bs | s | l]; try reflexivity.
    rewrite normalize_strip_only_closed, normalize_closed. reflexivity.
  - repeat split; vm_compute; reflexivity.
Qed.

(** * Further properties *)

(** ** The decoder on text without a well-formed group *)

Lemma match_hex_first_group (k : nat) (s : str) :
  match_hex 1 s = None -> match_hex (S k) s = None.
Proof.
  unfold match_hex. cbn [match_hex_groups].
  destruct s as [|b [|x [|h1 [|h2 rest]]]]; try reflexivity.
  destruct ((b =? 92) && (x =? 120) && re_hex h1 && re_hex h2);
    [discriminate | reflexivity].
Qed.

Lemma re_sub_hex_without_escape (k : nat) (repl : re_match -> exc str)
    (s : str) :
  has_escape s = false -> re_sub_hex (S k) repl s = Ret s.
Proof.
  unfold re_sub_hex.
  induction s as [|c s IH]; intros H; [reflexivity|].
  cbn [has_escape] in H.
  destruct (match_hex 1 (c :: s)) eqn:E; [discriminate|].
  cbn [re_sub_hex_from]. rewrite (match_hex_first_group k _ E).
  rewrite (IH H). reflexivity.
Qed.

Lemma decode_without_escape (s : str) :
  has_escape s = false ->
  _decode_literal_hex_sequences (PyStr s) = Ret s.
Proof.
  intros H. unfold _decode_literal_hex_sequences. cbn [as_str].
  rewrite (re_sub_hex_without_escape 2 _ s H). cbn [bind].
  rewrite (re_sub_hex_without_escape 1 _ s H). cbn [bind].
  apply re_sub_hex_without_escape. exact H.
Qed.

(** X1.  A text in which no position starts a well-formed group
    (backslash, x, two hexadecimal digits) is returned by the decoder as
    it is, malformed escapes included. *)
Theorem decoder_leaves_text_without_escape (s : str) :
  has_escape s = false ->
  _decode_literal_hex_sequences (PyStr s) = Ret s.
Proof. apply decode_without_escape. Qed.

Lemma decoder_leaves_text_without_escape_witness :
  _decode_literal_hex_sequences (PyStr (lit "C:\Temp \x4 \xg1 50\\ x41"))
  = Ret (lit "C:\Temp \x4 \xg1 50\\ x41").
Proof.
  apply decoder_leaves_text_without_escape. vm_compute. reflexivity.
Defined.

(** ** Runs of two and three groups standing alone *)

Lemma spec_pass_three_short (s : str) :
  (length s < 12)%nat -> spec_pass_three s = s.
Proof.
  induction s as [|c tl IH]; intros H; [reflexivity|].
  assert (Htl : spec_pass_three tl = tl) by (apply IH; simpl in H; lia).
  rewrite spec_pass_three_cons.
  do 11 (destruct tl as [|? tl]; [cbv beta iota; rewrite Htl; reflexivity|]).
  simpl in H. lia.
Qed.

Lemma spec_pass_two_short (s : str) :
  (length s < 8)%nat -> spec_pass_two s = s.
Proof.
  induction s as [|c tl IH]; intros H; [reflexivity|].
  assert (Htl : spec_pass_two tl = tl) by (apply IH; simpl in H; lia).
  rewrite spec_pass_two_cons.
  do 7 (destruct tl as [|? tl]; [cbv beta iota; rewrite Htl; reflexivity|]).
  simpl in H. lia.
Qed.

Lemma spec_pass_one_short (s : str) :
  (length s < 4)%nat -> spec_pass_one s = s.
Proof.
  induction s as [|c tl IH]; intros H; [reflexivity|].
  assert (Htl : spec_pass_one tl = tl) by (apply IH; simpl in H; lia).
  rewrite spec_pass_one_cons.
  do 3 (destruct tl as [|? tl]; [cbv beta iota; rewrite Htl; reflexivity|]).
  simpl in H. lia.
Qed.

Lemma is_group_escape (h1 h2 : N) :
  re_hex h1 = true -> re_hex h2 = true -> is_group 92 120 h1 h2 = true.
Proof. intros H1 H2. unfold is_group. rewrite H1, H2. reflexivity. Qed.

Lemma utf8_decode_length (bs : list N) (t : str) :
  utf8_decode bs = Some t -> (length t <= length bs)%nat.
Proof.
  revert t. pattern bs. apply str_length_ind. clear bs. intros bs IH t.
  destruct bs as [|b1 r1]; [intros H; inversion H; simpl; lia|].
  cbn [utf8_decode].
  destruct (b1 <? 128).
  { destruct (utf8_decode r1) as [t1|] eqn:E; [|discriminate].
    intros H; inversion H; subst. apply IH in E; simpl in *; lia. }
  destruct ((194 <=? b1) && (b1 <=? 223)).
  { destruct r1 as [|b2 r2]; [discriminate|].
    destruct (is_cont b2); [|discriminate].
    destruct (utf8_decode r2) as [t1|] eqn:E; [|discriminate].
    intros H; inversion H; subst. apply IH in E; simpl in *; lia. }
  destruct ((224 <=? b1) && (b1 <=? 239)).
  { destruct r1 as [|b2 [|b3 r3]]; try discriminate.
    destruct (second_of_three b1 b2 && is_cont b3); [|discriminate].
    destruct (utf8_decode r3) as [t1|] eqn:E; [|discriminate].
    intros H; inversion H; subst. apply IH in E; simpl in *; lia. }
  destruct ((240 <=? b1) && (b1 <=? 244)); [|discriminate].
  destruct r1 as [|b2 [|b3 [|b4 r4]]]; try discriminate.
  destruct (second_of_four b1 b2 && is_cont b3 && is_cont b4); [|discriminate].
  destruct (utf8_decode r4) as [t1|] eqn:E; [|discriminate].
  intros H; inversion H; subst. apply IH in E; simpl in *; lia.
Qed.

Lemma spec_pass_one_before_group (t : str) (h1 h2 : N) :
  (length t <= 2)%nat -> re_hex h1 = true -> re_hex h2 = true ->
  spec_pass_one (t ++ escape h1 h2) = t ++ [hex_pair h1 h2].
Proof.
  intros Ht H1 H2.
  assert (Hg : spec_pass_one (escape h1 h2) = [hex_pair h1 h2]).
  { unfold escape. rewrite spec_pass_one_cons. cbv beta iota.
    rewrite is_group_escape by assumption. reflexivity. }
  assert (Hno : re_hex 92 = false) by reflexivity.
  assert (Hx : (92 =? 120) = false) by reflexivity.
  destruct t as [|a [|b [|c t]]]; [exact Hg | | | simpl in Ht; lia].
  - change ([a] ++ escape h1 h2) with (a :: escape h1 h2).
    unfold escape at 1. rewrite spec_pass_one_cons. cbv beta iota.
    unfold is_group at 1. rewrite Hx, andb_false_r. cbn [andb].
    fold (escape h1 h2). rewrite Hg. reflexivity.
  - change ([a; b] ++ escape h1 h2) with (a :: b :: escape h1 h2).
    unfold escape at 1. rewrite spec_pass_one_cons. cbv beta iota.
    unfold is_group at 1. rewrite Hno, andb_false_r. cbn [andb].
    rewrite spec_pass_one_cons. cbv beta iota.
    unfold is_group at 1. rewrite Hx, andb_false_r. cbn [andb].
    fold (escape h1 h2). rewrite Hg. reflexivity.
Qed.

(** X2.  A run of two groups standing alone gives the UTF-8 decoding of
    its two bytes when they are valid UTF-8; otherwise each byte gives the
    character of that code point. *)
Theorem decoder_on_two_groups (h1 h2 h3 h4 : N) :
  re_hex h1 = true -> re_hex h2 = true ->
  re_hex h3 = true -> re_hex h4 = true ->
  _decode_literal_hex_sequences (PyStr (escape h1 h2 ++ escape h3 h4))
  = Ret (match utf8_decode [hex_pair h1 h2; hex_pair h3 h4] with
         | Some decoded => decoded
         | None => [hex_pair h1 h2; hex_pair h3 h4]
         end).
Proof.
  intros H1 H2 H3 H4. rewrite decode_refines. f_equal. unfold spec_decode.
  rewrite spec_pass_three_short by (simpl; lia).
  change (escape h1 h2 ++ escape h3 h4)
    with (92 :: 120 :: h1 :: h2 :: escape h3 h4).
  unfold escape at 1. rewrite spec_pass_two_cons. cbv beta iota.
  rewrite !is_group_escape by assumption. cbn [andb].
  change (spec_pass_two []) with (@nil N). rewrite app_nil_r.
  unfold utf8_or_original.
  destruct (utf8_decode [hex_pair h1 h2; hex_pair h3 h4]) as [t|] eqn:E.
  - apply spec_pass_one_short. apply utf8_decode_length in E.
    simpl in E. lia.
  - rewrite spec_pass_one_cons. cbv beta iota.
    rewrite is_group_escape by assumption.
    apply (f_equal (cons (hex_pair h1 h2))).
    apply (spec_pass_one_before_group [] h3 h4); [simpl; lia | | ];
      assumption.
Qed.

Lemma decoder_on_two_groups_witness :
  _decode_literal_hex_sequences (PyStr (lit "\xc3\xa9")) = Ret [233]
  /\ _decode_literal_hex_sequences (PyStr (lit "\xe9\x41")) = Ret [233; 65].
Proof.
  split.
  - exact (decoder_on_two_groups 99 51 97 57 eq_refl eq_refl eq_refl eq_refl).
  - exact (decoder_on_two_groups 101 57 52 49 eq_refl eq_refl eq_refl eq_refl).
Defined.

(** X3.  A run of three groups standing alone gives the UTF-8 decoding of
    its three bytes when they are valid UTF-8.  Otherwise the first two
    groups are taken as a pair (decoded when valid UTF-8, else one
    character per byte) and the third is always read on its own, also
    when the second and third bytes would form a valid pair. *)
Theorem decoder_on_three_groups (h1 h2 h3 h4 h5 h6 : N) :
  re_hex h1 = true -> re_hex h2 = true -> re_hex h3 = true ->
  re_hex h4 = true -> re_hex h5 = true -> re_hex h6 = true ->
  _decode_literal_hex_sequences
    (PyStr (escape h1 h2 ++ escape h3 h4 ++ escape h5 h6))
  = Ret (match utf8_decode [hex_pair h1 h2; hex_pair h3 h4; hex_pair h5 h6]
         with
         | Some decoded => decoded
         | None =>
             match utf8_decode [hex_pair h1 h2; hex_pair h3 h4] with
             | Some two => two ++ [hex_pair h5 h6]
             | None => [hex_pair h1 h2; hex_pair h3 h4; hex_pair h5 h6]
             end
         end).
Proof.
  intros H1 H2 H3 H4 H5 H6. rewrite decode_refines. f_equal.
  unfold spec_decode.
  change (escape h1 h2 ++ escape h3 h4 ++ escape h5 h6)
    with (92 :: 120 :: h1 :: h2 :: 92 :: 120 :: h3 :: h4 :: escape h5 h6).
  unfold escape at 1. rewrite spec_pass_three_cons. cbv beta iota.
  rewrite !is_group_escape by assumption. cbn [andb].
  change (spec_pass_three []) with (@nil N). rewrite app_nil_r.
  unfold utf8_or_original at 1.
  destruct (utf8_decode [hex_pair h1 h2; hex_pair h3 h4; hex_pair h5 h6])
    as [t|] eqn:E.
  - apply utf8_decode_length in E. simpl in E.
    rewrite spec_pass_two_short by lia. apply spec_pass_one_short. lia.
  - rewrite spec_pass_two_cons. cbv beta iota.
    rewrite !is_group_escape by assumption. cbn [andb].
    rewrite (spec_pass_two_short [92; 120; h5; h6]) by (simpl; lia).
    fold (escape h5 h6). unfold utf8_or_original.
    destruct (utf8_decode [hex_pair h1 h2; hex_pair h3 h4]) as [p|] eqn:Ep.
    + apply spec_pass_one_before_group; try assumption.
      apply utf8_decode_length in Ep. simpl in Ep. lia.
    + change ([92; 120; h1; h2; 92; 120; h3; h4] ++ escape h5 h6)
        with (92 :: 120 :: h1 :: h2 :: 92 :: 120 :: h3 :: h4
                :: escape h5 h6).
      rewrite spec_pass_one_cons. cbv beta iota.
      rewrite is_group_escape by assumption.
      apply (f_equal (cons (hex_pair h1 h2))).
      rewrite spec_pass_one_cons. cbv beta iota.
      rewrite is_group_escape by assumption.
      apply (f_equal (cons (hex_pair h3 h4))).
      apply (spec_pass_one_before_group [] h5 h6); [simpl; lia | | ];
        assumption.
Qed.

Lemma decoder_on_three_groups_witness :
  _decode_literal_hex_sequences (PyStr (lit "\xe2\x82\xac")) = Ret [8364]
  /\ _decode_literal_hex_sequences (PyStr (lit "\xff\xc3\xa9"))
     = Ret [255; 195; 169].
Proof.
  split.
  - exact (decoder_on_three_groups 101 50 56 50 97 99
             eq_refl eq_refl eq_refl eq_refl eq_refl eq_refl).
  - exact (decoder_on_three_groups 102 102 99 51 97 57
             eq_refl eq_refl eq_refl eq_refl eq_refl eq_refl).
Defined.

(** X4.  The decoder runs its passes once: the group 5c decodes to a
    backslash, which can start a new well-formed group that is returned
    undecoded, so that decoding the result again changes it. *)
Theorem decoder_is_not_idempotent (h1 h2 : N) :
  re_hex h1 = true -> re_hex h2 = true ->
  _decode_literal_hex_sequences (PyStr (escape 53 99 ++ [120; h1; h2]))
  = Ret (escape h1 h2)
  /\ _decode_literal_hex_sequences (PyStr (escape h1 h2))
     = Ret [hex_pair h1 h2]
  /\ escape h1 h2 <> [hex_pair h1 h2].
Proof.
  intros H1 H2. split; [|split; [|discriminate]].
  - rewrite decode_refines. reflexivity.
  - rewrite decode_refines. f_equal. unfold spec_decode.
    rewrite spec_pass_three_short by (simpl; lia).
    rewrite spec_pass_two_short by (simpl; lia).
    apply (spec_pass_one_before_group [] h1 h2); [simpl; lia | | ];
      assumption.
Qed.

Lemma decoder_is_not_idempotent_witness :
  _decode_literal_hex_sequences (PyStr (lit "\x5cx41")) = Ret (lit "\x41")
  /\ _decode_literal_hex_sequences (PyStr (lit "\x41")) = Ret (lit "A").
Proof.
  destruct (decoder_is_not_idempotent 52 49 eq_refl eq_refl) as [A [B _]].
  split; [exact A | exact B].
Defined.

(** ** [_strip_suffixes] *)

Lemma starts_space_split (s : str) :
  starts_space s = false -> split s <> [].
Proof.
  destruct s as [|c s]; [discriminate|].
  simpl. intros H. rewrite H.
  unfold cons_word. destruct (starts_space s); [discriminate|].
  destruct (split s); discriminate.
Qed.

Lemma starts_space_app (a b : str) (p : N) :
  isspace p = true -> starts_space (a ++ p :: b) = starts_space a.
Proof. destruct a; simpl; auto. Qed.

Lemma split_app_space (a b : str) (p : N) :
  isspace p = true -> split (a ++ p :: b) = split a ++ split b.
Proof.
  intros Hp. induction a as [|x a IH]; simpl.
  - rewrite Hp. reflexivity.
  - destruct (isspace x); [exact IH|].
    rewrite IH, starts_space_app by exact Hp.
    unfold cons_word.
    destruct (starts_space a) eqn:E; [reflexivity|].
    destruct (split a) as [|w ws] eqn:Es; [|reflexivity].
    exfalso. exact (starts_space_split a E Es).
Qed.

Lemma kept_tokens_app_space (a b : str) (p : N) :
  isspace p = true ->
  kept_tokens (a ++ p :: b) = kept_tokens a ++ kept_tokens b.
Proof.
  intros Hp. unfold kept_tokens.
  rewrite split_app_space by exact Hp. apply filter_app.
Qed.

Lemma suffix_token_is_word (tok : str) : In tok suffix_tokens -> word tok.
Proof.
  intros H. split.
  - intros ->. apply is_suffix_token_in in H. discriminate.
  - intros c Hc.
    assert (Hb : forallb (forallb (fun c => negb (isspace c))) suffix_tokens
                 = true) by reflexivity.
    rewrite forallb_forall in Hb. specialize (Hb tok H).
    rewrite forallb_forall in Hb. specialize (Hb c Hc).
    apply negb_true_iff in Hb. exact Hb.
Qed.

Lemma kept_tokens_suffix_token (tok : str) :
  In tok suffix_tokens -> kept_tokens tok = [].
Proof.
  intros H. unfold kept_tokens.
  rewrite split_word by (apply suffix_token_is_word; exact H).
  apply is_suffix_token_in in H. cbn [filter]. rewrite H. reflexivity.
Qed.

Lemma strip_suffixes_joined (s : str) :
  _strip_suffixes (PyStr s) = join [32] (kept_tokens s).
Proof. reflexivity. Qed.

(** X5.  A suffix token is dropped wherever it stands: at the end, at the
    start or between two other parts of the text, after any whitespace
    character. *)
Theorem strip_suffixes_drops_token_anywhere (tok a b : str) (p q : N) :
  In tok suffix_tokens -> isspace p = true -> isspace q = true ->
  _strip_suffixes (PyStr (a ++ p :: tok)) = _strip_suffixes (PyStr a)
  /\ _strip_suffixes (PyStr (tok ++ q :: b)) = _strip_suffixes (PyStr b)
  /\ _strip_suffixes (PyStr (a ++ p :: tok ++ q :: b))
     = _strip_suffixes (PyStr (a ++ p :: b)).
Proof.
  intros Ht Hp Hq. rewrite !strip_suffixes_joined.
  assert (Hk := kept_tokens_suffix_token tok Ht).
  repeat split; f_equal.
  - rewrite kept_tokens_app_space, Hk, app_nil_r by exact Hp. reflexivity.
  - rewrite kept_tokens_app_space, Hk by exact Hq. reflexivity.
  - rewrite !kept_tokens_app_space, Hk by assumption. reflexivity.
Qed.

Lemma strip_suffixes_drops_token_anywhere_witness :
  _strip_suffixes (PyStr (lit "john smith" ++ 9 :: lit "iii"))
  = _strip_suffixes (PyStr (lit "john smith")).
Proof.
  refine (proj1 (strip_suffixes_drops_token_anywhere
                   (lit "iii") (lit "john smith") [] 9 32 _ _ _)).
  - right; right; right; left; reflexivity.
  - reflexivity.
  - reflexivity.
Defined.

(** X6.  [_strip_suffixes] is idempotent. *)
Theorem strip_suffixes_idempotent (s : str) :
  _strip_suffixes (PyStr (_strip_suffixes (PyStr s)))
  = _strip_suffixes (PyStr s).
Proof.
  rewrite !strip_suffixes_joined. rewrite kept_tokens_joined. reflexivity.
Qed.

(** X7.  The result of [_strip_suffixes] is empty exactly when every token
    of the text is a suffix token, which includes the empty text and the
    text made of whitespace only. *)
Theorem strip_suffixes_empty_iff (s : str) :
  _strip_suffixes (PyStr s) = []
  <-> forallb is_suffix_token (split s) = true.
Proof.
  rewrite strip_suffixes_joined. unfold kept_tokens. split.
  - intros H.
    assert (Hw : Forall word
                   (filter (fun tok => negb (is_suffix_token tok)) (split s)))
      by apply kept_tokens_words.
    destruct (filter (fun tok => negb (is_suffix_token tok)) (split s))
      as [|w ws] eqn:E.
    + apply forallb_forall. intros tok Htok.
      destruct (is_suffix_token tok) eqn:Es; [reflexivity|].
      assert (Hin : In tok (filter (fun tok => negb (is_suffix_token tok))
                                   (split s)))
        by (apply filter_In; rewrite Es; auto).
      rewrite E in Hin. destruct Hin.
    + inversion Hw as [|? ? [Hne _] _]; subst.
      destruct w; [congruence|]. destruct ws; discriminate.
  - intros H. rewrite forallb_forall in H.
    assert (E : filter (fun tok => negb (is_suffix_token tok)) (split s) = []).
    { induction (split s) as [|w ws IH]; [reflexivity|].
      cbn [filter]. rewrite (H w) by (left; reflexivity). cbn [negb].
      apply IH. intros x Hx. apply H. right. exact Hx. }
    rewrite E. reflexivity.
Qed.

(** X8.  Whatever the text, the result of [_strip_suffixes] has single
    spaces as its only whitespace, none of them at either end: tabs, line
    breaks and runs of spaces all come out as one space. *)
Theorem strip_suffixes_single_spaced (s : str) :
  single_spaced (_strip_suffixes (PyStr s))
  /\ strip (_strip_suffixes (PyStr s)) = _strip_suffixes (PyStr s).
Proof.
  rewrite strip_suffixes_joined. split.
  - apply single_spaced_join, kept_tokens_words.
  - apply strip_joined.
Qed.

(** ** The orchestrator *)

Lemma output_no_backslash (U : UnicodeData) (s out : str) :
  normalize_name_for_blocking U (PyStr s) = Ret out -> ~ In 92 out.
Proof.
  rewrite normalize_closed. intros H. injection H as <-.
  apply joined_no_backslash, standardized_no_backslash.
Qed.

(** X9.  An output of the orchestrator contains no escape left to
    decode: the decoder returns it as it is. *)
Theorem output_is_fixed_by_decoder (U : UnicodeData) (s out : str) :
  normalize_name_for_blocking U (PyStr s) = Ret out ->
  _decode_literal_hex_sequences (PyStr out) = Ret out.
Proof.
  intros H. apply decode_no_backslash. eapply output_no_backslash. exact H.
Qed.

Lemma output_is_fixed_by_decoder_witness :
  _decode_literal_hex_sequences (PyStr (lit "a x41 b")) = Ret (lit "a x41 b").
Proof.
  apply (output_is_fixed_by_decoder ucd_fragment (lit "A\x5cx41 B.")).
  vm_compute. reflexivity.
Defined.

(** X10.  When accent stripping and lowercasing leave an output of the
    orchestrator as it is, a second call returns it unchanged. *)
Theorem second_call_is_identity_on_stable_output (U : UnicodeData)
    (s out : str) :
  normalize_name_for_blocking U (PyStr s) = Ret out ->
  _strip_accents U (PyStr out) = out ->
  lower U out = out ->
  normalize_name_for_blocking U (PyStr out) = Ret out.
Proof. apply idempotent_when_stable. Qed.

Lemma second_call_is_identity_on_stable_output_witness :
  normalize_name_for_blocking ucd_fragment (PyStr (lit "obrien smith"))
  = Ret (lit "obrien smith").
Proof.
  apply (second_call_is_identity_on_stable_output ucd_fragment
           (lit "O'Brien-Smith, Jr.")); vm_compute; reflexivity.
Defined.

(** ** Plain ASCII text on the fragment of the database *)

Lemma assoc_below {A : Type} (default : A) (table : list (N * A))
    (bound c : N) :
  forallb (fun kv => bound <=? fst kv) table = true ->
  c < bound -> assoc default table c = default.
Proof.
  intros Ht Hc. induction table as [|[k v] table IH]; [reflexivity|].
  cbn [forallb fst] in Ht. apply andb_true_iff in Ht as [Hk Ht].
  apply N.leb_le in Hk. cbn [assoc].
  destruct (N.eqb_spec k c); [lia | apply IH; exact Ht].
Qed.

Lemma decomposition_ascii (c : N) : c < 128 -> decomposition c = [c].
Proof.
  intros H. unfold decomposition.
  apply (assoc_below [c] latin1_decompositions 128); [reflexivity | exact H].
Qed.

Lemma combining_ascii (c : N) : c < 128 -> combining c = 0.
Proof.
  intros H. unfold combining.
  apply (assoc_below 0 combining_classes 128); [reflexivity | exact H].
Qed.

Lemma place_marks_starters (s acc : str) :
  (forall c, In c s -> combining c = 0) ->
  fold_left (fun rev_out c => place_mark c rev_out) s acc = rev s ++ acc.
Proof.
  revert acc. induction s as [|c s IH]; intros acc H; [reflexivity|].
  cbn [fold_left rev].
  assert (Hc : place_mark c acc = c :: acc).
  { destruct acc as [|p ps]; [reflexivity|].
    cbn [place_mark]. rewrite (H c) by (left; reflexivity). reflexivity. }
  rewrite Hc, IH by (intros d Hd; apply H; right; exact Hd).
  rewrite <- app_assoc. reflexivity.
Qed.

Lemma fragment_nfd_ascii (s : str) : is_ascii s -> fragment_nfd s = s.
Proof.
  intros H. unfold fragment_nfd, canonical_order.
  rewrite flat_map_fixed
    by (intros c Hc; apply decomposition_ascii, H; exact Hc).
  rewrite place_marks_starters
    by (intros c Hc; apply combining_ascii, H; exact Hc).
  rewrite app_nil_r. apply rev_involutive.
Qed.

Lemma fragment_category_ascii (c : N) :
  c < 128 -> str_eqb (fragment_category c) (lit "Mn") = false.
Proof.
  intros H. unfold fragment_category.
  destruct (N.ltb_spec c 256) as [_|]; [|lia].
  assert (Hall : forallb (fun x => negb (str_eqb (lit x) (lit "Mn")))
                         latin1_categories = true) by reflexivity.
  rewrite forallb_forall in Hall.
  apply negb_true_iff, Hall, nth_In.
  change (length latin1_categories) with 256%nat. lia.
Qed.

Lemma strip_accents_ascii (s : str) :
  is_ascii s -> _strip_accents ucd_fragment (PyStr s) = s.
Proof.
  intros H. unfold _strip_accents. cbn [as_str nfd category ucd_fragment].
  rewrite join_empty_singletons, fragment_nfd_ascii by exact H.
  induction s as [|c s IH]; [reflexivity|].
  cbn [filter]. rewrite fragment_category_ascii by (apply H; left; reflexivity).
  cbn [negb]. rewrite IH by (intros d Hd; apply H; right; exact Hd).
  reflexivity.
Qed.

Lemma lower_char_ascii (c : N) : c < 128 -> lower_char c < 128.
Proof.
  unfold lower_char. intros H.
  destruct (N.leb_spec 65 c), (N.leb_spec c 90), (N.leb_spec 192 c),
    (N.leb_spec c 222), (N.eqb_spec c 215); cbn [andb orb negb]; lia.
Qed.

Lemma lower_char_backslash (c : N) : lower_char c = 92 -> c = 92.
Proof.
  unfold lower_char.
  destruct (N.leb_spec 65 c), (N.leb_spec c 90), (N.leb_spec 192 c),
    (N.leb_spec c 222), (N.eqb_spec c 215); cbn [andb orb negb]; lia.
Qed.

Lemma is_ascii_lower (s : str) : is_ascii s -> is_ascii (map lower_char s).
Proof.
  intros H c Hc. apply in_map_iff in Hc as [x [<- Hx]].
  apply lower_char_ascii, H, Hx.
Qed.

Lemma no_backslash_lower (s : str) :
  ~ In 92 s -> ~ In 92 (map lower_char s).
Proof.
  intros H Hc. apply in_map_iff in Hc as [x [E Hx]].
  apply lower_char_backslash in E. subst x. exact (H Hx).
Qed.

Lemma no_backslash_no_escape (s : str) : ~ In 92 s -> has_escape s = false.
Proof.
  induction s as [|c s IH]; intros H; [reflexivity|].
  cbn [has_escape].
  rewrite (match_hex_no_backslash 0 c s)
    by (intros ->; apply H; left; reflexivity).
  apply IH. intros Hs. apply H. right. exact Hs.
Qed.

Lemma spec_decode_without_escape (s : str) :
  has_escape s = false -> spec_decode s = s.
Proof.
  intros H. apply decode_without_escape in H.
  rewrite decode_refines in H. injection H as E. exact E.
Qed.

Lemma folded_ascii (s : str) :
  is_ascii s -> has_escape s = false ->
  folded ucd_fragment s = strip (map lower_char s).
Proof.
  intros Ha He. unfold folded.
  rewrite spec_decode_without_escape, strip_accents_ascii by assumption.
  reflexivity.
Qed.

Lemma output_chars (U : UnicodeData) (s out : str) (c : N) :
  normalize_name_for_blocking U (PyStr s) = Ret out -> In c out ->
  c = 32 \/ In c (lower U (_strip_accents U (PyStr (spec_decode s)))).
Proof.
  rewrite normalize_closed. intros H. injection H as <-. intros Hc.
  apply in_join in Hc as [Hc|[w [Hw Hc]]]; [auto|].
  assert (Hx : In c (standardized (folded U s)))
    by (eapply in_kept_tokens; eauto).
  apply in_standardized in Hx as [[Hx|Hx] _]; [|auto].
  right. unfold folded in Hx. apply in_strip in Hx. exact Hx.
Qed.

(** X11.  On plain ASCII text in which no position starts a well-formed
    group, the orchestrator is idempotent (Unicode data as in the fragment,
    which is exact on ASCII). *)
Theorem idempotent_on_ascii (s out : str) :
  is_ascii s -> has_escape s = false ->
  normalize_name_for_blocking ucd_fragment (PyStr s) = Ret out ->
  normalize_name_for_blocking ucd_fragment (PyStr out) = Ret out.
Proof.
  intros Ha He Hout.
  assert (Hc : forall c, In c out -> c < 128 /\ lower_char c = c).
  { intros c Hc. destruct (output_chars _ _ _ _ Hout Hc) as [->|H].
    - split; [lia | reflexivity].
    - rewrite spec_decode_without_escape, strip_accents_ascii in H
        by assumption.
      cbn [lower ucd_fragment] in H. unfold fragment_lower in H.
      apply in_map_iff in H as [x [<- Hx]].
      split; [apply lower_char_ascii, Ha, Hx | apply lower_char_idempotent]. }
  apply (idempotent_when_stable ucd_fragment s out Hout).
  - apply strip_accents_ascii. intros c H. apply Hc, H.
  - cbn [lower ucd_fragment]. unfold fragment_lower.
    rewrite <- (map_id out) at 2. apply map_ext_in.
    intros c H. apply Hc, H.
Qed.

Lemma idempotent_on_ascii_witness :
  normalize_name_for_blocking ucd_fragment (PyStr (lit "mary jane oneil x4"))
  = Ret (lit "mary jane oneil x4").
Proof.
  apply (idempotent_on_ascii (lit "Mary-Jane  O'NEIL, \x4 Sr.")).
  - intros c Hc. vm_compute in Hc.
    repeat (destruct Hc as [<-|Hc]; [reflexivity|]). destruct Hc.
  - vm_compute. reflexivity.
  - vm_compute. reflexivity.
Defined.

(** X12.  On plain ASCII text without backslash the orchestrator does not
    see the case of letters: the lowercased text gives the same output
    (Unicode data as in the fragment). *)
Theorem case_insensitive_on_ascii (s : str) :
  is_ascii s -> ~ In 92 s ->
  normalize_name_for_blocking ucd_fragment (PyStr (lower ucd_fragment s))
  = normalize_name_for_blocking ucd_fragment (PyStr s).
Proof.
  intros Ha Hn. rewrite !normalize_closed.
  cbn [lower ucd_fragment]. unfold fragment_lower.
  rewrite (folded_ascii (map lower_char s))
    by (apply is_ascii_lower, Ha
        || apply no_backslash_no_escape, no_backslash_lower, Hn).
  rewrite (folded_ascii s) by (exact Ha || apply no_backslash_no_escape, Hn).
  rewrite map_map.
  rewrite (map_ext _ lower_char lower_char_idempotent). reflexivity.
Qed.

Lemma case_insensitive_on_ascii_witness :
  normalize_name_for_blocking ucd_fragment (PyStr (lit "o'brien-smith, jr."))
  = normalize_name_for_blocking ucd_fragment (PyStr (lit "O'Brien-SMITH, Jr.")).
Proof.
  apply (case_insensitive_on_ascii (lit "O'Brien-SMITH, Jr.")).
  - intros c Hc. vm_compute in Hc.
    repeat (destruct Hc as [<-|Hc]; [reflexivity|]). destruct Hc.
  - vm_compute. intros Hc.
    repeat (destruct Hc as [Hc|Hc]; [discriminate Hc|]). destruct Hc.
Defined.

(** ** Equivalent spellings of plain ASCII text *)

Lemma split_flat_map_lstrip (f : N -> str) (x : str) :
  (forall c, isspace c = true -> f c = [c]) ->
  split (flat_map f (lstrip x)) = split (flat_map f x).
Proof.
  intros Hf. induction x as [|c x IH]; [reflexivity|].
  cbn [lstrip]. destruct (isspace c) eqn:E; [|reflexivity].
  cbn [flat_map]. rewrite (Hf c E). cbn [app split]. rewrite E. exact IH.
Qed.

Lemma split_flat_map_rev_lstrip (f : N -> str) (r : str) :
  (forall c, isspace c = true -> f c = [c]) ->
  split (flat_map f (rev (lstrip r))) = split (flat_map f (rev r)).
Proof.
  intros Hf. induction r as [|c r IH]; [reflexivity|].
  cbn [lstrip]. destruct (isspace c) eqn:E; [|reflexivity].
  cbn [rev]. rewrite flat_map_app. cbn [flat_map].
  rewrite (Hf c E), app_nil_r, split_snoc_space by exact E. exact IH.
Qed.

Lemma split_flat_map_strip (f : N -> str) (x : str) :
  (forall c, isspace c = true -> f c = [c]) ->
  split (flat_map f (strip x)) = split (flat_map f x).
Proof.
  intros Hf. unfold strip, rstrip.
  rewrite split_flat_map_rev_lstrip, rev_involutive by exact Hf.
  apply split_flat_map_lstrip. exact Hf.
Qed.

Lemma punctuation_image_space (c : N) :
  isspace c = true -> punctuation_image c = [c].
Proof.
  intros H. unfold punctuation_image.
  destruct (N.eqb_spec c 46) as [->|_]; [discriminate H|].
  destruct (N.eqb_spec c 44) as [->|_]; [discriminate H|].
  destruct (N.eqb_spec c 39) as [->|_]; [discriminate H|].
  destruct (N.eqb_spec c 45) as [->|_]; [discriminate H|].
  reflexivity.
Qed.

Lemma standardized_without_backslash (x : str) :
  ~ In 92 x -> standardized x = flat_map punctuation_image x.
Proof.
  intros H. unfold standardized.
  rewrite replace_pair_absent by exact H.
  rewrite (flat_map_fixed backslash_to_space); [reflexivity|].
  intros c Hc. unfold backslash_to_space.
  destruct (N.eqb_spec c 92) as [->|_]; [contradiction | reflexivity].
Qed.

(** The text that stands for a plain ASCII text once lowercased and rid
    of its punctuation. *)
Lemma normalize_ascii (s : str) :
  is_ascii s -> ~ In 92 s ->
  normalize_name_for_blocking ucd_fragment (PyStr s)
  = Ret (join [32]
           (kept_tokens (flat_map punctuation_image (map lower_char s)))).
Proof.
  intros Ha Hn. rewrite normalize_closed. do 2 f_equal.
  rewrite folded_ascii by (exact Ha || apply no_backslash_no_escape, Hn).
  rewrite standardized_without_backslash
    by (intros H; apply in_strip in H; exact (no_backslash_lower s Hn H)).
  unfold kept_tokens. f_equal.
  apply split_flat_map_strip, punctuation_image_space.
Qed.

Lemma is_ascii_app (a b : str) :
  is_ascii a -> is_ascii b -> is_ascii (a ++ b).
Proof.
  intros Ha Hb c Hc. apply in_app_or in Hc as [Hc|Hc]; [apply Ha | apply Hb];
    exact Hc.
Qed.

Lemma is_ascii_cons (c : N) (b : str) :
  c < 128 -> is_ascii b -> is_ascii (c :: b).
Proof. intros Hc Hb x [<-|Hx]; [exact Hc | apply Hb, Hx]. Qed.

Lemma no_backslash_app (a b : str) :
  ~ In 92 a -> ~ In 92 b -> ~ In 92 (a ++ b).
Proof. intros Ha Hb H. apply in_app_or in H as [H|H]; auto. Qed.

Lemma no_backslash_cons (c : N) (b : str) :
  c <> 92 -> ~ In 92 b -> ~ In 92 (c :: b).
Proof. intros Hc Hb [H|H]; [congruence | auto]. Qed.

Lemma isspace_range (c : N) :
  isspace c = true -> c <= 32 \/ c = 133 \/ c = 160 \/ 5760 <= c.
Proof.
  unfold isspace.
  rewrite !orb_true_iff, !andb_true_iff, !N.leb_le, !N.eqb_eq. lia.
Qed.

Lemma lower_char_space (c : N) : isspace c = true -> lower_char c = c.
Proof.
  intros H. apply isspace_range in H. unfold lower_char.
  destruct (N.leb_spec 65 c), (N.leb_spec c 90), (N.leb_spec 192 c),
    (N.leb_spec c 222), (N.eqb_spec c 215); cbn [andb orb negb];
    try reflexivity; lia.
Qed.

Lemma tokens_around_separator (a b : str) (p : N) :
  isspace p = true ->
  kept_tokens (flat_map punctuation_image (map lower_char (a ++ p :: b)))
  = kept_tokens (flat_map punctuation_image (map lower_char a))
    ++ kept_tokens (flat_map punctuation_image (map lower_char b)).
Proof.
  intros Hp. rewrite map_app, flat_map_app. cbn [map flat_map].
  rewrite lower_char_space, punctuation_image_space by exact Hp.
  apply (kept_tokens_app_space _ _ p Hp).
Qed.

(** X13.  On plain ASCII text without backslash, a part that spells a
    suffix token once lowercased and rid of its punctuation (Jr., SR,
    i.i.i.) is ignored at the end and at the start of the text (Unicode
    data as in the fragment). *)
Theorem suffix_spelling_is_ignored_on_ascii (s u : str) :
  is_ascii s -> is_ascii u -> ~ In 92 s -> ~ In 92 u ->
  In (flat_map punctuation_image (map lower_char u)) suffix_tokens ->
  normalize_name_for_blocking ucd_fragment (PyStr (s ++ 32 :: u))
  = normalize_name_for_blocking ucd_fragment (PyStr s)
  /\ normalize_name_for_blocking ucd_fragment (PyStr (u ++ 32 :: s))
     = normalize_name_for_blocking ucd_fragment (PyStr s).
Proof.
  intros Has Hau Hns Hnu Hu.
  assert (H32 : 32 < 128) by lia.
  assert (N32 : 32 <> 92) by discriminate.
  rewrite !normalize_ascii
    by (assumption
        || (apply is_ascii_app; [|apply is_ascii_cons]; assumption)
        || (apply no_backslash_app; [|apply no_backslash_cons]; assumption)).
  rewrite !tokens_around_separator by reflexivity.
  rewrite (kept_tokens_suffix_token _ Hu), app_nil_r. split; reflexivity.
Qed.

Lemma suffix_spelling_is_ignored_on_ascii_witness :
  normalize_name_for_blocking ucd_fragment (PyStr (lit "John Smith J.R."))
  = normalize_name_for_blocking ucd_fragment (PyStr (lit "John Smith")).
Proof.
  refine (proj1 (suffix_spelling_is_ignored_on_ascii
                   (lit "John Smith") (lit "J.R.") _ _ _ _ _)).
  - intros c Hc. vm_compute in Hc.
    repeat (destruct Hc as [<-|Hc]; [reflexivity|]). destruct Hc.
  - intros c Hc. vm_compute in Hc.
    repeat (destruct Hc as [<-|Hc]; [reflexivity|]). destruct Hc.
  - vm_compute. intros Hc.
    repeat (destruct Hc as [Hc|Hc]; [discriminate Hc|]). destruct Hc.
  - vm_compute. intros Hc.
    repeat (destruct Hc as [Hc|Hc]; [discriminate Hc|]). destruct Hc.
  - vm_compute. left. reflexivity.
Defined.

(** X14.  On plain ASCII text without backslash, the separators are
    interchangeable: any whitespace character, a run of two of them and a
    hyphen between two parts all give the same output (Unicode data as in
    the fragment). *)
Theorem separators_are_equivalent_on_ascii (a b : str) (p q : N) :
  is_ascii a -> is_ascii b -> ~ In 92 a -> ~ In 92 b ->
  isspace p = true -> p < 128 -> isspace q = true -> q < 128 ->
  normalize_name_for_blocking ucd_fragment (PyStr (a ++ p :: b))
  = normalize_name_for_blocking ucd_fragment (PyStr (a ++ 32 :: b))
  /\ normalize_name_for_blocking ucd_fragment (PyStr (a ++ p :: q :: b))
     = normalize_name_for_blocking ucd_fragment (PyStr (a ++ 32 :: b))
  /\ normalize_name_for_blocking ucd_fragment (PyStr (a ++ 45 :: b))
     = normalize_name_for_blocking ucd_fragment (PyStr (a ++ 32 :: b)).
Proof.
  intros Ha Hb Hna Hnb Hp Hp' Hq Hq'.
  assert (H32 : 32 < 128) by lia.
  assert (H45 : 45 < 128) by lia.
  assert (N32 : 32 <> 92) by discriminate.
  assert (N45 : 45 <> 92) by discriminate.
  assert (Np : p <> 92) by (intros ->; discriminate Hp).
  assert (Nq : q <> 92) by (intros ->; discriminate Hq).
  rewrite !normalize_ascii
    by (repeat (assumption
                || apply is_ascii_app || apply is_ascii_cons
                || apply no_backslash_app || apply no_backslash_cons)).
  rewrite !tokens_around_separator by (assumption || reflexivity).
  repeat split.
  - f_equal. f_equal. cbn [map flat_map].
    rewrite lower_char_space, punctuation_image_space by exact Hq.
    unfold kept_tokens. cbn [app split]. rewrite Hq. reflexivity.
  - do 2 f_equal. rewrite map_app, flat_map_app. cbn [map flat_map].
    change (punctuation_image (lower_char 45)) with [32].
    apply (kept_tokens_app_space _ _ 32). reflexivity.
Qed.

Lemma separators_are_equivalent_on_ascii_witness :
  normalize_name_for_blocking ucd_fragment
    (PyStr (lit "Anne" ++ 9 :: lit "Marie"))
  = normalize_name_for_blocking ucd_fragment (PyStr (lit "Anne Marie"))
  /\ normalize_name_for_blocking ucd_fragment (PyStr (lit "Anne-Marie"))
     = normalize_name_for_blocking ucd_fragment (PyStr (lit "Anne Marie")).
Proof.
  assert (Ha : is_ascii (lit "Anne")).
  { intros c Hc. vm_compute in Hc.
    repeat (destruct Hc as [<-|Hc]; [reflexivity|]). destruct Hc. }
  assert (Hb : is_ascii (lit "Marie")).
  { intros c Hc. vm_compute in Hc.
    repeat (destruct Hc as [<-|Hc]; [reflexivity|]). destruct Hc. }
  assert (Hna : ~ In 92 (lit "Anne")).
  { vm_compute. intros Hc.
    repeat (destruct Hc as [Hc|Hc]; [discriminate Hc|]). destruct Hc. }
  assert (Hnb : ~ In 92 (lit "Marie")).
  { vm_compute. intros Hc.
    repeat (destruct Hc as [Hc|Hc]; [discriminate Hc|]). destruct Hc. }
  destruct (separators_are_equivalent_on_ascii (lit "Anne") (lit "Marie")
              9 10 Ha Hb Hna Hnb eq_refl eq_refl eq_refl eq_refl)
    as [H1 [_ H3]].
  split; [exact H1 | exact H3].
Defined.

(** X15.  On plain ASCII text without backslash, periods, commas and
    apostrophes are invisible: deleting one of them anywhere in the text
    leaves the output the same (Unicode data as in the fragment). *)
Theorem deleted_punctuation_is_invisible_on_ascii (a b : str) (c : N) :
  is_ascii a -> is_ascii b -> ~ In 92 a -> ~ In 92 b ->
  c = 46 \/ c = 44 \/ c = 39 ->
  normalize_name_for_blocking ucd_fragment (PyStr (a ++ c :: b))
  = normalize_name_for_blocking ucd_fragment (PyStr (a ++ b)).
Proof.
  intros Ha Hb Hna Hnb Hc.
  assert (Hc' : c < 128 /\ c <> 92 /\ punctuation_image (lower_char c) = [])
    by (destruct Hc as [->|[->| ->]]; repeat split; (lia || discriminate)).
  destruct Hc' as [Hlt [Hne Himg]].
  rewrite !normalize_ascii
    by (repeat (assumption
                || apply is_ascii_app || apply is_ascii_cons
                || apply no_backslash_app || apply no_backslash_cons)).
  rewrite !map_app, !flat_map_app. cbn [map flat_map].
  rewrite Himg. reflexivity.
Qed.

Lemma deleted_punctuation_is_invisible_on_ascii_witness :
  normalize_name_for_blocking ucd_fragment (PyStr (lit "O'Brien"))
  = normalize_name_for_blocking ucd_fragment (PyStr (lit "OBrien")).
Proof.
  apply (deleted_punctuation_is_invisible_on_ascii (lit "O") (lit "Brien") 39).
  - intros c Hc. vm_compute in Hc.
    repeat (destruct Hc as [<-|Hc]; [reflexivity|]). destruct Hc.
  - intros c Hc. vm_compute in Hc.
    repeat (destruct Hc as [<-|Hc]; [reflexivity|]). destruct Hc.
  - vm_compute. intros Hc.
    repeat (destruct Hc as [Hc|Hc]; [discriminate Hc|]). destruct Hc.
  - vm_compute. intros Hc.
    repeat (destruct Hc as [Hc|Hc]; [discriminate Hc|]). destruct Hc.
  - right; right; reflexivity.
Defined.
